(** * plugin-replace: the [--replace] flag loader

    A shallow embedding of [PluginLoader] (the flag default resolver, the
    flag verifier and the transform factory) together with the few pieces of
    the JavaScript runtime the loader leans on: strings as sequences of
    UTF-16 code units, ordinary objects with the properties they inherit from
    [Object.prototype], the backtracking match of the pattern
    [/(.+)=(.+)/] and [JSON.stringify] on arrays of strings.

    The entries of the [replace] array are strings, as the flag declares
    them ([flags.string], [multiple]) and as the command line delivers
    them. [JSON.parse] and the [replace] of [@rollup/plugin-replace] are
    not part of the loader: they are parameters. *)

From Stdlib Require Import NArith List String Ascii Lia.
From Stdlib Require Import Floats.SpecFloat.
From stdpp Require Import base option list gmap strings.

#[local] Set Warnings "-register-all".
#[local] Open Scope N_scope.

(** ** Strings *)

(** A JavaScript string is a finite sequence of UTF-16 code units. *)
Abbreviation code_unit := N (only parsing).
Abbreviation jsstring := (list N) (only parsing).

(** [str] reads an ASCII literal of the source as a JavaScript string. *)
Definition str (s : string) : jsstring :=
  map N_of_ascii (list_ascii_of_string s).

Definition LF : jsstring := [10].
Definition EQUALS : code_unit := 61.

(** ** Values *)

Inductive JsValue : Type :=
| VUndefined
| VNull
| VBoolean (b : bool)
| VNumber (x : spec_float)
| VString (s : jsstring)
| VArray (elems : list jsstring) (own : gmap jsstring JsValue)
| VObject (own : gmap jsstring JsValue).

Abbreviation JsObject := (gmap jsstring JsValue) (only parsing).

(** The array literal [[s1, ..., sn]]: elements and no other own property. *)
Definition array_of (elems : list jsstring) : JsValue := VArray elems ∅.

Inductive JsType : Type :=
| TUndefined | TObject | TBoolean | TNumber | TString.

Definition typeof (v : JsValue) : JsType :=
  match v with
  | VUndefined => TUndefined
  | VNull => TObject
  | VBoolean _ => TBoolean
  | VNumber _ => TNumber
  | VString _ => TString
  | VArray _ _ => TObject
  | VObject _ => TObject
  end.

(** What a function leaves behind: a value, or a thrown error. *)
Inductive JsError : Type :=
| NonFatalError (message : jsstring)
| TypeError.

Inductive Completion (A : Type) : Type :=
| Return (a : A)
| Throw (e : JsError).
Arguments Return {A} a.
Arguments Throw {A} e.

Module Array.
Definition isArray (v : JsValue) : bool :=
  match v with
  | VArray _ _ => true
  | _ => false
  end.
End Array.

Module Object.
(** The own and accessor properties of [%Object.prototype%], Annex B
    included; every object written [{}] inherits them. *)
Definition prototype_keys : list jsstring :=
  map str
    [ "constructor"; "__defineGetter__"; "__defineSetter__";
      "hasOwnProperty"; "__lookupGetter__"; "__lookupSetter__";
      "isPrototypeOf"; "propertyIsEnumerable"; "toString"; "valueOf";
      "__proto__"; "toLocaleString" ]%string.

(** [key in o] for an ordinary object [o]: an own property or one found
    on the prototype chain. *)
Definition has_property (o : JsObject) (key : jsstring) : bool :=
  bool_decide (is_Some (o !! key)) || bool_decide (key ∈ prototype_keys).

(** [o[key]] / [o.key] where [key] is not inherited: the own property or
    [undefined]. *)
Definition get (o : JsObject) (key : jsstring) : JsValue :=
  default VUndefined (o !! key).

(** [Object.assign(target, { key: v })]: throws on [null] and
    [undefined]; sets the property on an object or an array and returns
    that same object. The loader calls it on values whose [typeof] is
    [object] only; the wrapper object that a boolean, number or string
    target would be turned into is outside the values modelled, and the
    last case stands for it. *)
Definition assign (target : JsValue) (key : jsstring) (v : JsValue)
  : Completion JsValue :=
  match target with
  | VUndefined | VNull => Throw TypeError
  | VObject own => Return (VObject (<[key := v]> own))
  | VArray elems own => Return (VArray elems (<[key := v]> own))
  | prim => Return prim
  end.
End Object.

(** ** The pattern [/(.+)=(.+)/] *)

Module RegExp.
(** [.] without the [s] flag matches any code unit but a line terminator. *)
Definition is_line_terminator (c : code_unit) : bool :=
  (c =? 10) || (c =? 13) || (c =? 8232) || (c =? 8233).

(** [(.+)] followed by the continuation [k], as the backtracking matcher
    of ECMAScript runs it: the group takes one more code unit while it can
    (greedy), and gives them back one at a time while [k] fails. [taken]
    is what the group holds so far, [rest] the input still ahead. *)
Fixpoint dot_plus {R : Type} (taken rest : jsstring)
    (k : jsstring -> jsstring -> option R) : option R :=
  match rest with
  | [] => None
  | c :: rest' =>
      if is_line_terminator c then None
      else match dot_plus (taken ++ [c]) rest' k with
           | Some r => Some r
           | None => k (taken ++ [c]) rest'
           end
  end.

(** The whole pattern tried at the start of [s]; a match is the array
    [[matched text, group 1, group 2]]. *)
Definition match_here (s : jsstring) : option (list jsstring) :=
  dot_plus [] s (fun g1 rest1 =>
    match rest1 with
    | c :: rest2 =>
        if c =? EQUALS
        then dot_plus [] rest2 (fun g2 _ => Some [g1 ++ EQUALS :: g2; g1; g2])
        else None
    | [] => None
    end).

(** [regex.exec(s)]: the pattern is neither anchored nor sticky, so the
    start positions are tried from the left; [None] is [null]. *)
Fixpoint exec (s : jsstring) : option (list jsstring) :=
  match match_here s with
  | Some m => Some m
  | None =>
      match s with
      | [] => None
      | _ :: s' => exec s'
      end
  end.
End RegExp.

(** ** [JSON.stringify] on an array of strings *)

Module JSON.
Definition hex_digit (d : N) : code_unit :=
  if d <? 10 then 48 + d else 87 + d.

(** [\uXXXX], four lower-case hexadecimal digits. *)
Definition unicode_escape (c : code_unit) : jsstring :=
  [92; 117; hex_digit (c / 4096 mod 16); hex_digit (c / 256 mod 16);
   hex_digit (c / 16 mod 16); hex_digit (c mod 16)].

Definition is_leading_surrogate (c : code_unit) : bool :=
  (55296 <=? c) && (c <=? 56319).
Definition is_trailing_surrogate (c : code_unit) : bool :=
  (56320 <=? c) && (c <=? 57343).

(** The two-character escapes: backspace, tab, line feed, form feed,
    carriage return, the double quote and the backslash. *)
Definition short_escape (c : code_unit) : option code_unit :=
  if c =? 8 then Some 98
  else if c =? 9 then Some 116
  else if c =? 10 then Some 110
  else if c =? 12 then Some 102
  else if c =? 13 then Some 114
  else if c =? 34 then Some 34
  else if c =? 92 then Some 92
  else None.

(** QuoteJSONString without the enclosing quotes: short escapes, then
    [\uXXXX] for the other control characters and for surrogates that
    are not part of a pair; everything else is copied. *)
Fixpoint quote_units (s : jsstring) : jsstring :=
  match s with
  | [] => []
  | c :: s' =>
      match short_escape c with
      | Some e => 92 :: e :: quote_units s'
      | None =>
          if c <? 32 then unicode_escape c ++ quote_units s'
          else if is_leading_surrogate c then
            match s' with
            | d :: s'' =>
                if is_trailing_surrogate d then c :: d :: quote_units s''
                else unicode_escape c ++ quote_units s'
            | [] => unicode_escape c
            end
          else if is_trailing_surrogate c
               then unicode_escape c ++ quote_units s'
          else c :: quote_units s'
      end
  end.

Definition quote (s : jsstring) : jsstring := 34 :: quote_units s ++ [34].

Fixpoint join (sep : jsstring) (parts : list jsstring) : jsstring :=
  match parts with
  | [] => []
  | [p] => p
  | p :: parts' => p ++ sep ++ join sep parts'
  end.

(** [JSON.stringify(a)] for an array [a] of strings, no indentation. *)
Definition stringify (a : list jsstring) : jsstring :=
  str "[" ++ join (str ",") (map quote a) ++ str "]".
End JSON.

(** ** The loader *)

Module PluginLoader.

(** *** The [default] of the [replace] flag *)
Section Default.
(** [JSON.parse]: the parsed value, or the message of the [SyntaxError]
    it throws. *)
Variable JSON_parse : jsstring -> jsstring + JsValue.
(** [`${globalThis.$$cli_env_prefix}`] *)
Variable cli_env_prefix : jsstring.
(** [process.env]: every variable that is set holds a string. *)
Variable process_env : gmap jsstring jsstring.

Definition default (context : JsValue) : Completion JsValue :=
  let envVars : gmap jsstring jsstring :=
    match context with VNull => ∅ | _ => process_env end in
  let envVar := cli_env_prefix ++ str "_REPLACE" in
  match envVars !! envVar with
  | Some text =>
      match JSON_parse text with
      | inl error_message =>
          Throw (NonFatalError
            (str "Could not parse '" ++ envVar
             ++ str "' as a JSON array;" ++ LF ++ error_message))
      | inr result =>
          if negb (Array.isArray result)
          then Throw (NonFatalError
                 (str "Please format '" ++ envVar
                  ++ str "' as a JSON array."))
          else Return result
      end
  | None => Return VUndefined
  end.
End Default.

(** *** [verify] *)

(** The three locals the [forEach] callback closes over: the object
    [entries] and the arrays [badEntries] and [warnEntries]. *)
Record Locals : Type := {
  entries : gmap jsstring JsValue;
  badEntries : list jsstring;
  warnEntries : list jsstring
}.

Definition no_entries : Locals :=
  {| entries := ∅; badEntries := []; warnEntries := [] |}.

Definition forEach_callback (st : Locals) (entry : jsstring) : Locals :=
  match RegExp.exec entry with
  | Some (_ :: m1 :: m2 :: _) =>
      if Object.has_property (entries st) m1
      then {| entries := entries st;
              badEntries := badEntries st;
              warnEntries := warnEntries st ++ [entry] |}
      else {| entries := <[m1 := VString m2]> (entries st);
              badEntries := badEntries st;
              warnEntries := warnEntries st |}
  | _ =>
      {| entries := entries st;
         badEntries := badEntries st ++ [entry];
         warnEntries := warnEntries st |}
  end.

Definition scan (elems : list jsstring) : Locals :=
  foldl forEach_callback no_entries elems.

Definition preface : jsstring :=
  str "plugin-replace verification failure:" ++ LF.

Definition delimiters : JsValue := array_of [ []; [] ].

Definition errorMessage (bad warn : list jsstring) : jsstring :=
  let m0 := preface in
  let m1 :=
    if (0 <? length bad)%nat
    then m0 ++ str "- can not parse " ++ JSON.stringify bad ++ str " each "
            ++ str "entry must be a 'string' in the format of '<xxx>=<yyy>'."
    else m0 in
  if (0 <? length warn)%nat
  then m1 ++ (if (0 <? length bad)%nat then LF else [])
          ++ str "- the following "
          ++ str "entries overwrite previous entries "
          ++ JSON.stringify warn ++ str "."
  else m1.

(** [verify(flags)]: the flags object as the call leaves it, and how the
    call ends. *)
Definition verify (flags : JsObject) : JsObject * Completion unit :=
  match Object.get flags (str "replace") with
  | VArray elems _ =>
      let st := scan elems in
      (* flags.replace = entries; *)
      let flags := <[str "replace" := VObject (entries st)]> flags in
      (* flags.replace.delimiters = ['', '']; *)
      let flags :=
        match Object.get flags (str "replace") with
        | VObject own =>
            <[str "replace" :=
                VObject (<[str "delimiters" := delimiters]> own)]> flags
        | _ => flags
        end in
      let message := errorMessage (badEntries st) (warnEntries st) in
      if bool_decide (message ≠ preface)
      then (flags, Throw (NonFatalError message))
      else (flags, Return tt)
  | _ => (flags, Return tt)
  end.

(** *** [getInputPlugin] *)

(** [bundleData], typed as its JSDoc has it: [cliFlags] is an object
    when it is there. *)
Record BundleData : Type := { cliFlags : option (gmap jsstring JsValue) }.

Section GetInputPlugin.
Context {Plugin : Type}.
(** [replace] of [@rollup/plugin-replace]. *)
Variable replace : JsValue -> Plugin.

(** [bundleData = {}] when the argument is missing. The result pairs
    the bundle data as the call leaves it ([Object.assign] writes to
    the object held by [cliFlags.replace]) with the value returned;
    [None] is the [undefined] of a function that falls off its end. *)
Definition getInputPlugin (bundleData : option BundleData)
  : BundleData * Completion (option Plugin) :=
  let bundleData :=
    match bundleData with
    | Some given => given
    | None => {| cliFlags := None |}
    end in
  match cliFlags bundleData with
  | Some flags =>
      match typeof (Object.get flags (str "replace")) with
      | TObject =>
          match Object.assign (Object.get flags (str "replace"))
                  (str "preventAssignment") (VBoolean true) with
          | Return options =>
              ({| cliFlags := Some (<[str "replace" := options]> flags) |},
               Return (Some (replace options)))
          | Throw e => (bundleData, Throw e)
          end
      | _ => (bundleData, Return None)
      end
  | None => (bundleData, Return None)
  end.
End GetInputPlugin.

End PluginLoader.

(** The CommonJS revision of the loader ([src/loader/PluginLoader.js])
    has the same [verify]. Its [default] takes no context and reads
    [global.$$flag_env_prefix]; its [getInputPlugin] hands
    [cliFlags.replace] to [replace] as it is, with no option added.
    [replace] reads the properties of the options it is given, so that
    [replace(null)] ends in a TypeError and builds no plugin. *)
Module PluginLoaderCjs.
Section Default.
Variable JSON_parse : jsstring -> jsstring + JsValue.
(** [`${global.$$flag_env_prefix}`] *)
Variable flag_env_prefix : jsstring.
Variable process_env : gmap jsstring jsstring.

Definition default : Completion JsValue :=
  let envVar := flag_env_prefix ++ str "_REPLACE" in
  match process_env !! envVar with
  | Some text =>
      match JSON_parse text with
      | inl error_message =>
          Throw (NonFatalError
            (str "Could not parse '" ++ envVar
             ++ str "' as a JSON array;" ++ LF ++ error_message))
      | inr result =>
          if negb (Array.isArray result)
          then Throw (NonFatalError
                 (str "Please format '" ++ envVar
                  ++ str "' as a JSON array."))
          else Return result
      end
  | None => Return VUndefined
  end.
End Default.

Section GetInputPlugin.
Context {Plugin : Type}.
Variable replace : JsValue -> Plugin.

Definition getInputPlugin (bundleData : option PluginLoader.BundleData)
  : Completion (option Plugin) :=
  let bundleData :=
    match bundleData with
    | Some given => given
    | None => {| PluginLoader.cliFlags := None |}
    end in
  match PluginLoader.cliFlags bundleData with
  | Some flags =>
      match typeof (Object.get flags (str "replace")) with
      | TObject =>
          match Object.get flags (str "replace") with
          | VNull => Throw TypeError
          | options => Return (Some (replace options))
          end
      | _ => Return None
      end
  | None => Return None
  end.
End GetInputPlugin.
End PluginLoaderCjs.

(** The first revision of the flag handling ([src/unnamed/part_001],
    [s_ADD_FLAGS]): the variable is [DEPLOY_REPLACE], the errors are plain
    [Error]s marked [$$bundler_fatal = false], and [verify], whose loop and
    message have the text of the later revisions, stores the object as
    the loop leaves it. *)
Module PluginHandler001.
Inductive BundlerError : Type :=
| Error (message : jsstring) (bundler_fatal : bool).

Inductive Outcome (A : Type) : Type :=
| Returned (a : A)
| Thrown (e : BundlerError).
Arguments Returned {A} a.
Arguments Thrown {A} e.

Section Default.
Variable JSON_parse : jsstring -> jsstring + JsValue.
Variable process_env : gmap jsstring jsstring.

Definition default : Outcome JsValue :=
  match process_env !! str "DEPLOY_REPLACE" with
  | Some text =>
      match JSON_parse text with
      | inl error_message =>
          Thrown (Error
            (str "Could not parse 'DEPLOY_REPLACE' as a JSON array;" ++ LF
             ++ error_message) false)
      | inr result =>
          if negb (Array.isArray result)
          then Thrown (Error
                 (str "Please format 'DEPLOY_REPLACE' as a JSON array.") false)
          else Returned result
      end
  | None => Returned VUndefined
  end.
End Default.

Definition verify (flags : JsObject) : JsObject * Outcome unit :=
  match Object.get flags (str "replace") with
  | VArray elems _ =>
      let st := PluginLoader.scan elems in
      (* flags.replace = entries; *)
      let flags :=
        <[str "replace" := VObject (PluginLoader.entries st)]> flags in
      let message :=
        PluginLoader.errorMessage (PluginLoader.badEntries st)
          (PluginLoader.warnEntries st) in
      if bool_decide (message ≠ PluginLoader.preface)
      then (flags, Thrown (Error message false))
      else (flags, Returned tt)
  | _ => (flags, Returned tt)
  end.
End PluginHandler001.

(** ** Vocabulary of the statements *)

(** [s.startsWith(part)] and [s.includes(part)]. *)
Fixpoint starts_with (s part : jsstring) {struct part} : bool :=
  match part, s with
  | [], _ => true
  | p :: part', c :: s' => (c =? p) && starts_with s' part'
  | _ :: _, [] => false
  end.

Fixpoint includes (s part : jsstring) : bool :=
  starts_with s part
  || match s with
     | [] => false
     | _ :: s' => includes s' part
     end.

(** No line terminator in [s]. *)
Definition single_line (s : jsstring) : bool :=
  forallb (fun c => negb (RegExp.is_line_terminator c)) s.

(** Some [=] of [s] has a code unit before it and a code unit after it. *)
Fixpoint text_around_equals (s : jsstring) : bool :=
  match s with
  | [] => false
  | _ :: s' =>
      match s' with
      | c :: _ :: _ => (c =? EQUALS) || text_around_equals s'
      | _ => false
      end
  end.

(** Every [=] of [s] is its last code unit. *)
Definition equals_only_last (s : jsstring) : bool :=
  negb (existsb (N.eqb EQUALS) (removelast s)).

(** The separator as the specification words it: the last [=] of the
    entry, whatever stands on its two sides. *)
Fixpoint split_last_equals (s : jsstring) : option (jsstring * jsstring) :=
  match s with
  | [] => None
  | c :: s' =>
      match split_last_equals s' with
      | Some (k, v) => Some (c :: k, v)
      | None => if c =? EQUALS then Some ([], s') else None
      end
  end.

(** The left-hand and right-hand text of an entry the verifier takes as
    well-formed. *)
Definition key_value (entry : jsstring) : option (jsstring * jsstring) :=
  match RegExp.exec entry with
  | Some (_ :: k :: v :: _) => Some (k, v)
  | _ => None
  end.

(** The ReplacementMap said without the loop: the well-formed entries,
    the first entry of a key winning over the later ones. A key that every
    object inherits is bound by no entry (the loop takes it for a
    duplicate). *)
Fixpoint first_wins (elems : list jsstring) : gmap jsstring JsValue :=
  match elems with
  | [] => ∅
  | entry :: later =>
      match key_value entry with
      | Some (k, v) =>
          if bool_decide (k ∈ Object.prototype_keys) then first_wins later
          else <[k := VString v]> (first_wins later)
      | None => first_wins later
      end
  end.

(** The two sections of the error message. *)
Definition malformed_section (bad : list jsstring) : jsstring :=
  str "- can not parse " ++ JSON.stringify bad
  ++ str " each entry must be a 'string' in the format of '<xxx>=<yyy>'.".

Definition duplicate_section (warn : list jsstring) : jsstring :=
  str "- the following entries overwrite previous entries "
  ++ JSON.stringify warn ++ str ".".

(** A flags object that holds nothing but [replace: [...]]. *)
Definition flags_of (elems : list jsstring) : gmap jsstring JsValue :=
  {[ str "replace" := array_of elems ]}.

(** What [verify] leaves in [flags.replace]. *)
Definition stored (flags : gmap jsstring JsValue) : JsValue :=
  Object.get (PluginLoader.verify flags).1 (str "replace").

(** A stand-in for [JSON.parse] that knows the texts of a table and
    rejects every other text with the message [unexpected]. *)
Definition parse_by_table (table : list (jsstring * JsValue))
    (unexpected : jsstring) (text : jsstring) : jsstring + JsValue :=
  match list_find (fun row => row.1 = text) table with
  | Some (_, (_, v)) => inr v
  | None => inl unexpected
  end.

(** The environment of the specification's fallback example:
    [DEPLOY_REPLACE='["x=1","y=2"]'], with a [JSON.parse] that knows this
    one text. *)
Definition x1_y2 : list jsstring := [str "x=1"; str "y=2"].

Definition env_x1_y2 : gmap jsstring jsstring :=
  {[ str "DEPLOY_REPLACE" := JSON.stringify x1_y2 ]}.

Definition parse_x1_y2 : jsstring -> jsstring + JsValue :=
  parse_by_table [(JSON.stringify x1_y2, array_of x1_y2)]
    (str "Unexpected token").

(** Some [=] of [s] stands between two code units that are not line
    terminators. *)
Fixpoint usable_equals (s : jsstring) : bool :=
  match s with
  | [] => false
  | a :: s' =>
      match s' with
      | c :: b :: _ =>
          (negb (RegExp.is_line_terminator a) && (c =? EQUALS)
           && negb (RegExp.is_line_terminator b))
          || usable_equals s'
      | _ => false
      end
  end.

(** The left-hand keys of the well-formed entries, in the order of the
    entries. *)
Definition keys_of (elems : list jsstring) : list jsstring :=
  omap (fun entry => fst <$> key_value entry) elems.

(** The number of line feeds in [s]. *)
Definition line_feeds (s : jsstring) : nat := count_occ N.eq_dec s 10.

(** ** The match of [/(.+)=(.+)/] *)

Section RegExpFacts.
Import RegExp.

Lemma single_line_app (a b : jsstring) :
  single_line (a ++ b) = single_line a && single_line b.
Proof. apply forallb_app. Qed.

Lemma dot_plus_sound {R} (k : jsstring -> jsstring -> option R) rest :
  forall taken r,
    dot_plus taken rest k = Some r ->
    exists g rest',
      rest = g ++ rest' /\ g <> [] /\ single_line g = true
      /\ k (taken ++ g) rest' = Some r.
Proof.
  induction rest as [|c rest IH]; intros taken r; simpl; [done|].
  destruct (is_line_terminator c) eqn:Hc; [done|].
  destruct (dot_plus (taken ++ [c]) rest k) as [r'|] eqn:Hd.
  - intros [= ->].
    destruct (IH _ _ Hd) as (g & rest' & -> & _ & Hg & Hk).
    exists (c :: g), rest'. rewrite <- app_assoc in Hk.
    repeat split; [done| |done]. simpl. by rewrite Hc.
  - intros Hk. exists [c], rest. repeat split; [done| |done].
    simpl. by rewrite Hc.
Qed.

Lemma dot_plus_none {R} (k : jsstring -> jsstring -> option R) taken rest :
  (forall g rest', rest = g ++ rest' -> g <> [] -> single_line g = true ->
                   k (taken ++ g) rest' = None) ->
  dot_plus taken rest k = None.
Proof.
  intros Hall. destruct (dot_plus taken rest k) as [r|] eqn:Hd; [|done].
  destruct (dot_plus_sound _ _ _ _ Hd) as (g & rest' & Hr & Hg & Hl & Hk).
  by rewrite (Hall g rest') in Hk.
Qed.

Lemma dot_plus_none_elim {R} (k : jsstring -> jsstring -> option R) rest :
  forall taken g rest',
    dot_plus taken rest k = None ->
    rest = g ++ rest' -> g <> [] -> single_line g = true ->
    k (taken ++ g) rest' = None.
Proof.
  induction rest as [|c rest IH]; intros taken g rest' Hd Heq Hg Hl.
  - by destruct g.
  - destruct g as [|c' g]; [done|]. simpl in Heq. injection Heq as <- ->.
    simpl in Hl. apply andb_true_iff in Hl as [Hc Hl].
    apply negb_true_iff in Hc. simpl in Hd. rewrite Hc in Hd.
    destruct (dot_plus (taken ++ [c]) (g ++ rest') k) eqn:Hin; [done|].
    destruct g as [|d g]; [done|].
    rewrite (app_assoc taken [c] (d :: g) : taken ++ c :: d :: g = _).
    by apply (IH (taken ++ [c]) (d :: g) rest').
Qed.

(** What the group holds when the match succeeds is the longest prefix
    after which the rest of the pattern matches. *)
Lemma dot_plus_maximal {R} (k : jsstring -> jsstring -> option R) rest :
  forall taken r,
    dot_plus taken rest k = Some r ->
    exists g rest',
      rest = g ++ rest' /\ g <> [] /\ single_line g = true
      /\ k (taken ++ g) rest' = Some r
      /\ forall g' rest'',
           rest = g' ++ rest'' -> (length g < length g')%nat ->
           single_line g' = true -> k (taken ++ g') rest'' = None.
Proof.
  induction rest as [|c rest IH]; intros taken r; simpl; [done|].
  destruct (is_line_terminator c) eqn:Hc; [done|].
  destruct (dot_plus (taken ++ [c]) rest k) as [r'|] eqn:Hd.
  - intros [= ->].
    destruct (IH _ _ Hd) as (g & rest' & -> & _ & Hg & Hk & Hmax).
    exists (c :: g), rest'. rewrite <- app_assoc in Hk.
    repeat split; [done| |done|].
    + simpl. by rewrite Hc.
    + intros g' rest'' Heq Hlen Hl'. destruct g' as [|c' g']; [simpl in Hlen; lia|].
      simpl in Heq. injection Heq as <- Heq.
      simpl in Hl'. apply andb_true_iff in Hl' as [_ Hl'].
      rewrite (app_assoc taken [c] g' : taken ++ c :: g' = _).
      apply Hmax; [done| |done]. simpl in Hlen. lia.
  - intros Hk. exists [c], rest. repeat split; [done| |done|].
    + simpl. by rewrite Hc.
    + intros g' rest'' Heq Hlen Hl'. destruct g' as [|c' g']; [simpl in Hlen; lia|].
      simpl in Heq. injection Heq as <- Heq.
      simpl in Hl'. apply andb_true_iff in Hl' as [_ Hl'].
      destruct g' as [|d g']; [simpl in Hlen; lia|].
      rewrite (app_assoc taken [c] (d :: g') : taken ++ c :: d :: g' = _).
      by apply (dot_plus_none_elim k rest (taken ++ [c]) (d :: g') rest'').
Qed.

(** Greedy: the group ends at the longest prefix after which the rest of
    the pattern matches. *)
Lemma dot_plus_greedy {R} (k : jsstring -> jsstring -> option R) g :
  forall taken rest r,
    g <> [] -> single_line g = true ->
    k (taken ++ g) rest = Some r ->
    (forall g' rest', g ++ rest = g' ++ rest' -> (length g < length g')%nat ->
                      single_line g' = true -> k (taken ++ g') rest' = None) ->
    dot_plus taken (g ++ rest) k = Some r.
Proof.
  induction g as [|c g IH]; intros taken rest r Hne Hl Hk Hlonger; [done|].
  simpl in Hl. apply andb_true_iff in Hl as [Hc Hl].
  apply negb_true_iff in Hc. simpl. rewrite Hc.
  destruct g as [|d g].
  - simpl. rewrite dot_plus_none; [done|].
    intros g' rest' -> Hg' Hl'. rewrite <- app_assoc.
    apply Hlonger; [done| |by simpl; rewrite Hc].
    destruct g'; [done|]. simpl. lia.
  - rewrite (IH (taken ++ [c]) rest r); [done..| |].
    + by rewrite <- app_assoc.
    + intros g' rest' Heq Hlen Hl'. rewrite <- app_assoc. apply Hlonger.
      * simpl. by f_equal.
      * simpl in *. lia.
      * simpl. by rewrite Hc.
Qed.

Lemma match_here_sound s m :
  match_here s = Some m ->
  exists g1 g2 post,
    s = g1 ++ EQUALS :: g2 ++ post /\ g1 <> [] /\ g2 <> []
    /\ single_line g1 = true /\ single_line g2 = true
    /\ m = [g1 ++ EQUALS :: g2; g1; g2].
Proof.
  unfold match_here. intros H.
  apply dot_plus_sound in H as (g1 & rest1 & -> & Hg1 & Hl1 & H).
  destruct rest1 as [|c rest2]; [done|].
  destruct (c =? EQUALS) eqn:Hc; [|done]. apply N.eqb_eq in Hc as ->.
  apply dot_plus_sound in H as (g2 & post & -> & Hg2 & Hl2 & [= <-]).
  by exists g1, g2, post.
Qed.

Lemma exec_sound s m :
  exec s = Some m ->
  exists pre g1 g2 post,
    s = pre ++ g1 ++ EQUALS :: g2 ++ post /\ g1 <> [] /\ g2 <> []
    /\ single_line g1 = true /\ single_line g2 = true
    /\ m = [g1 ++ EQUALS :: g2; g1; g2].
Proof.
  induction s as [|c s IH]; simpl.
  - done.
  - destruct (match_here (c :: s)) eqn:Hm.
    + intros [= <-]. exists []. by apply match_here_sound.
    + intros H. destruct (IH H) as (pre & g1 & g2 & post & -> & Hrest).
      by exists (c :: pre), g1, g2, post.
Qed.

(** A match is always the three-element array the guard
    [matches.length >= 3] asks for. *)
Lemma exec_three s m :
  exec s = Some m -> exists m0 m1 m2, m = [m0; m1; m2].
Proof.
  intros H. apply exec_sound in H as (_ & g1 & g2 & _ & _ & _ & _ & _ & _ & ->).
  eauto.
Qed.

Lemma text_around_equals_intro (a b : jsstring) :
  a <> [] -> b <> [] -> text_around_equals (a ++ EQUALS :: b) = true.
Proof.
  induction a as [|x a IH]; intros Ha Hb; [done|].
  destruct a as [|y a].
  - destruct b as [|z b]; [done|]. reflexivity.
  - change (text_around_equals ((x :: y :: a) ++ EQUALS :: b))
      with (match (y :: a) ++ EQUALS :: b with
            | c :: _ :: _ =>
                (c =? EQUALS) || text_around_equals ((y :: a) ++ EQUALS :: b)
            | _ => false
            end).
    rewrite IH; [|done..].
    simpl. destruct (a ++ EQUALS :: b) eqn:E.
    + by destruct a.
    + apply orb_true_r.
Qed.

Lemma text_around_equals_elim (s : jsstring) :
  text_around_equals s = true ->
  exists a b, s = a ++ EQUALS :: b /\ a <> [] /\ b <> [].
Proof.
  induction s as [|x s IH]; [done|].
  destruct s as [|c [|z s]]; [done..|].
  change (text_around_equals (x :: c :: z :: s))
    with ((c =? EQUALS) || text_around_equals (c :: z :: s)).
  destruct (c =? EQUALS) eqn:Hc.
  - apply N.eqb_eq in Hc as ->. intros _. by exists [x], (z :: s).
  - simpl orb. intros H. destruct (IH H) as (a & b & Heq & Ha & Hb).
    exists (x :: a), b. simpl. by rewrite Heq.
Qed.

(** An entry that has no [=] with text on both sides does not match. *)
Lemma exec_null s : text_around_equals s = false -> exec s = None.
Proof.
  intros Hs. destruct (exec s) as [m|] eqn:Hm; [|done].
  apply exec_sound in Hm as (pre & g1 & g2 & post & -> & Hg1 & Hg2 & _).
  rewrite app_assoc, text_around_equals_intro in Hs; [done| |].
  - by destruct pre, g1.
  - by destruct g2.
Qed.

Lemma equals_only_last_elim (v v1 v2 : jsstring) :
  equals_only_last v = true -> v = v1 ++ EQUALS :: v2 -> v2 = [].
Proof.
  unfold equals_only_last. intros H ->.
  destruct v2 as [|z v2]; [done|]. exfalso.
  apply negb_true_iff in H.
  rewrite removelast_app, existsb_app in H; [|done].
  change (removelast (EQUALS :: z :: v2)) with (EQUALS :: removelast (z :: v2)) in H.
  apply orb_false_iff in H as [_ H]. by apply orb_false_iff in H as [H _].
Qed.

(** The match found in a single-line entry: the separator is the
    rightmost [=] that has text on both sides. *)
Lemma exec_split (k v : jsstring) :
  k <> [] -> v <> [] ->
  single_line k = true -> single_line v = true ->
  equals_only_last v = true ->
  exec (k ++ EQUALS :: v) = Some [k ++ EQUALS :: v; k; v].
Proof.
  intros Hk Hv Hlk Hlv Hlast.
  assert (match_here (k ++ EQUALS :: v) = Some [k ++ EQUALS :: v; k; v]) as Hm.
  { unfold match_here. apply dot_plus_greedy; [done..| |].
    - cbn beta iota. rewrite N.eqb_refl.
      rewrite <- (app_nil_r v) at 1. apply dot_plus_greedy; [done..|].
      intros g' rest' Heq Hlen _. apply (f_equal length) in Heq.
      rewrite !length_app in Heq. simpl in Heq. lia.
    - intros g' rest' Heq Hlen _. simpl.
      destruct rest' as [|c rest2]; [done|].
      destruct (c =? EQUALS) eqn:Hc; [|done]. apply N.eqb_eq in Hc as ->.
      apply app_eq_app in Heq as [l [[-> _]|[-> Heq]]].
      + rewrite length_app in Hlen. lia.
      + destruct l as [|e l]; [rewrite app_nil_r in Hlen; lia|].
        simpl in Heq. injection Heq as <- Heq.
        by rewrite (equals_only_last_elim v l rest2). }
  destruct k; [done|]. simpl in *. by rewrite Hm.
Qed.

Lemma equals_only_last_intro (v : jsstring) :
  (forall v1 v2, v = v1 ++ EQUALS :: v2 -> v2 = []) ->
  equals_only_last v = true.
Proof.
  intros Hall. unfold equals_only_last. apply negb_true_iff.
  destruct (existsb (N.eqb EQUALS) (removelast v)) eqn:Hex; [|done].
  apply existsb_exists in Hex as (x & Hin & Hx). apply N.eqb_eq in Hx as <-.
  apply in_split in Hin as (v1 & v2 & Hsplit).
  destruct v as [|c v] using rev_ind; [by destruct v1|].
  rewrite removelast_last in Hsplit. subst v.
  specialize (Hall v1 (v2 ++ [c])). rewrite <- app_assoc in Hall.
  specialize (Hall eq_refl). by destruct v2.
Qed.

(** The second group takes the rest of a single-line entry. *)
Lemma dot_plus_to_the_end {R} (f : jsstring -> R) (v : jsstring) :
  v <> [] -> single_line v = true ->
  dot_plus [] v (fun g2 _ => Some (f g2)) = Some (f v).
Proof.
  intros Hv Hl. rewrite <- (app_nil_r v) at 1.
  apply dot_plus_greedy; [done..|].
  intros g' rest' Heq Hlen _. apply (f_equal length) in Heq.
  rewrite !length_app in Heq. simpl in Heq. lia.
Qed.

(** On a single line a match is found exactly when some [=] has text on
    both sides; it then starts with the entry, ends with it, and its
    second group has no [=] but, possibly, a last one. *)
Lemma exec_single_line (s : jsstring) :
  single_line s = true ->
  (text_around_equals s = false /\ exec s = None)
  \/ (exists k v,
        s = k ++ EQUALS :: v /\ k <> [] /\ v <> []
        /\ equals_only_last v = true
        /\ exec s = Some [s; k; v]).
Proof.
  intros Hl. destruct (text_around_equals s) eqn:Hs;
    [right|left; split; [done|by apply exec_null]].
  apply text_around_equals_elim in Hs as (a & b & -> & Ha & Hb).
  rewrite single_line_app in Hl. apply andb_true_iff in Hl as [Hla Hlb].
  simpl in Hlb.
  assert (match_here (a ++ EQUALS :: b) <> None) as Hsome.
  { intros Hnone.
    pose proof (dot_plus_none_elim _ _ [] a (EQUALS :: b) Hnone eq_refl Ha Hla)
      as Hk.
    assert (dot_plus [] b (fun g2 _ => Some [a ++ EQUALS :: g2; a; g2]) = None)
      as Hnone' by exact Hk.
    by rewrite (dot_plus_to_the_end (fun g2 => [a ++ EQUALS :: g2; a; g2]))
      in Hnone'. }
  destruct (match_here (a ++ EQUALS :: b)) as [m|] eqn:Hm; [clear Hsome|done].
  assert (exec (a ++ EQUALS :: b) = Some m) as He.
  { destruct a; [done|]. simpl in *. by rewrite Hm. }
  unfold match_here in Hm.
  apply dot_plus_maximal in Hm as (k & rest1 & Heq & Hk & Hlk & Hm & Hmax1).
  destruct rest1 as [|c v]; [done|].
  destruct (c =? EQUALS) eqn:Hc; [|done]. apply N.eqb_eq in Hc as ->.
  assert (single_line v = true) as Hlv.
  { assert (single_line (a ++ EQUALS :: b) = true) as Hall
      by (rewrite single_line_app, Hla; done).
    rewrite Heq, single_line_app in Hall.
    by apply andb_true_iff in Hall as [_ Hall]. }
  destruct v as [|d v]; [done|].
  rewrite (dot_plus_to_the_end (fun g2 => [k ++ EQUALS :: g2; k; g2])) in Hm
    by done.
  injection Hm as <-.
  exists k, (d :: v). rewrite Heq in He |- *.
  repeat split; [done..| |done].
  apply equals_only_last_intro. intros v1 v2 Hv.
  destruct v2 as [|z v2]; [done|]. exfalso.
  assert (single_line (k ++ EQUALS :: v1) = true
          /\ single_line (z :: v2) = true) as [Hl1 Hl2].
  { rewrite Hv in Hlv. rewrite single_line_app in Hlv |- *.
    apply andb_true_iff in Hlv as [Hlv1 Hlv2]. simpl in Hlv2.
    split; [|done]. rewrite Hlk. simpl. by rewrite Hlv1. }
  specialize (Hmax1 (k ++ EQUALS :: v1) (EQUALS :: z :: v2)).
  rewrite Heq, Hv, <- app_assoc in Hmax1. specialize (Hmax1 eq_refl).
  rewrite length_app in Hmax1. simpl in Hmax1.
  specialize (Hmax1 ltac:(lia) Hl1).
  assert (dot_plus [] (z :: v2)
            (fun g2 _ => Some [(k ++ EQUALS :: v1) ++ EQUALS :: g2;
                               k ++ EQUALS :: v1; g2]) = None) as Hnone
    by exact Hmax1.
  by rewrite (dot_plus_to_the_end
                (fun g2 => [(k ++ EQUALS :: v1) ++ EQUALS :: g2;
                            k ++ EQUALS :: v1; g2])) in Hnone.
Qed.
End RegExpFacts.

(** ** The scan of the entries *)

Section ScanFacts.
Import PluginLoader.

Lemma key_value_exec entry k v :
  key_value entry = Some (k, v) <->
  exists m0 more, RegExp.exec entry = Some (m0 :: k :: v :: more).
Proof.
  unfold key_value. split.
  - destruct (RegExp.exec entry) as [[|m0 [|k' [|v' more]]]|]; try done.
    intros [= -> ->]. eauto.
  - by intros (m0 & more & ->).
Qed.

Lemma key_value_null entry : RegExp.exec entry = None -> key_value entry = None.
Proof. unfold key_value. by intros ->. Qed.

(** The callback, read through [key_value]. *)
Lemma forEach_callback_key_value st entry :
  forEach_callback st entry =
  match key_value entry with
  | Some (k, v) =>
      if Object.has_property (entries st) k
      then {| entries := entries st; badEntries := badEntries st;
              warnEntries := warnEntries st ++ [entry] |}
      else {| entries := <[k := VString v]> (entries st);
              badEntries := badEntries st; warnEntries := warnEntries st |}
  | None =>
      {| entries := entries st; badEntries := badEntries st ++ [entry];
         warnEntries := warnEntries st |}
  end.
Proof.
  unfold forEach_callback, key_value.
  by destruct (RegExp.exec entry) as [[|m0 [|k [|v more]]]|].
Qed.

Lemma scan_app pre post :
  scan (pre ++ post) = foldl forEach_callback (scan pre) post.
Proof. apply foldl_app. Qed.

Lemma scan_snoc pre entry :
  scan (pre ++ [entry]) = forEach_callback (scan pre) entry.
Proof. apply foldl_snoc. Qed.

Lemma has_property_own (o : gmap jsstring JsValue) k x :
  o !! k = Some x -> Object.has_property o k = true.
Proof.
  intros H. unfold Object.has_property. rewrite H.
  apply orb_true_iff. left. by apply bool_decide_eq_true_2.
Qed.

Lemma has_property_inherited (o : gmap jsstring JsValue) k :
  k ∈ Object.prototype_keys -> Object.has_property o k = true.
Proof.
  intros H. unfold Object.has_property. apply orb_true_iff. right.
  by apply bool_decide_eq_true_2.
Qed.

Lemma has_property_false (o : gmap jsstring JsValue) k :
  Object.has_property o k = false ->
  o !! k = None /\ k ∉ Object.prototype_keys.
Proof.
  unfold Object.has_property. intros H.
  apply orb_false_iff in H as [H1 H2].
  apply bool_decide_eq_false_1 in H1. apply bool_decide_eq_false_1 in H2.
  split; [|done]. destruct (o !! k); [|done]. by destruct H1.
Qed.

Lemma first_wins_inherited elems k :
  k ∈ Object.prototype_keys -> first_wins elems !! k = None.
Proof.
  intros Hk. induction elems as [|e elems IH]; simpl; [done|].
  destruct (key_value e) as [[k' v]|]; [|done].
  case_bool_decide as Hk'; [done|].
  rewrite lookup_insert_ne; [done|]. by intros ->.
Qed.

(** The object built by the loop is the ReplacementMap of the entries
    scanned, laid under what was bound before. *)
Lemma entries_foldl elems :
  forall st,
    (forall k, k ∈ Object.prototype_keys -> entries st !! k = None) ->
    entries (foldl forEach_callback st elems) = entries st ∪ first_wins elems.
Proof.
  induction elems as [|e elems IH]; intros st Hst; simpl.
  - by rewrite (right_id ∅ (∪)).
  - rewrite forEach_callback_key_value.
    destruct (key_value e) as [[k v]|]; [|by rewrite IH].
    destruct (Object.has_property (entries st) k) eqn:Hin.
    + rewrite IH by done. simpl.
      case_bool_decide as Hk; [done|].
      unfold Object.has_property in Hin. apply orb_true_iff in Hin as [Hin|Hin].
      * apply bool_decide_eq_true_1 in Hin as [x Hx].
        apply map_eq. intros i. rewrite !lookup_union.
        destruct (decide (k = i)) as [<-|Hne].
        -- rewrite Hx, lookup_insert_eq. by destruct (first_wins elems !! k).
        -- by rewrite lookup_insert_ne.
      * by apply bool_decide_eq_true_1 in Hin.
    + apply has_property_false in Hin as [Hnone Hk].
      rewrite IH; simpl.
      * rewrite bool_decide_eq_false_2 by done.
        rewrite <- insert_union_l. by rewrite insert_union_r.
      * intros i Hi. rewrite lookup_insert_ne; [by apply Hst|].
        by intros ->.
Qed.

Lemma entries_scan elems : entries (scan elems) = first_wins elems.
Proof.
  unfold scan. rewrite entries_foldl.
  - apply (left_id ∅ (∪)).
  - intros k _. apply lookup_empty.
Qed.

Lemma badEntries_foldl elems :
  forall st,
    badEntries (foldl forEach_callback st elems)
    = badEntries st ++ filter (fun e => key_value e = None) elems.
Proof.
  induction elems as [|e elems IH]; intros st; simpl.
  - by rewrite app_nil_r.
  - rewrite IH, forEach_callback_key_value, filter_cons.
    destruct (key_value e) as [[k v]|] eqn:He.
    + rewrite decide_False by done.
      by destruct (Object.has_property (entries st) k).
    + rewrite decide_True by done. simpl. by rewrite <- app_assoc.
Qed.

(** The malformed list is the input, reduced to the entries that do not
    match and kept in order. *)
Lemma badEntries_scan elems :
  badEntries (scan elems) = filter (fun e => key_value e = None) elems.
Proof. unfold scan. by rewrite badEntries_foldl. Qed.

Lemma warnEntries_foldl_kept elems :
  forall st e,
    e ∈ warnEntries st -> e ∈ warnEntries (foldl forEach_callback st elems).
Proof.
  induction elems as [|x elems IH]; intros st e He; simpl; [done|].
  apply IH. rewrite forEach_callback_key_value.
  destruct (key_value x) as [[k v]|]; [|done].
  destruct (Object.has_property (entries st) k); [|done].
  simpl. apply elem_of_app. by left.
Qed.
End ScanFacts.

(** ** The error message *)

Section MessageFacts.
Import PluginLoader.

Lemma starts_with_app (part rest : jsstring) :
  starts_with (part ++ rest) part = true.
Proof.
  induction part as [|p part IH]; simpl; [done|].
  by rewrite N.eqb_refl.
Qed.

Lemma starts_with_elim (s part : jsstring) :
  starts_with s part = true -> exists rest, s = part ++ rest.
Proof.
  revert s. induction part as [|p part IH]; intros s; simpl.
  - intros _. by exists s.
  - destruct s as [|c s]; [done|]. intros H.
    apply andb_true_iff in H as [Hc H]. apply N.eqb_eq in Hc as ->.
    destruct (IH _ H) as [rest ->]. by exists rest.
Qed.

Lemma includes_at_start (s part : jsstring) :
  starts_with s part = true -> includes s part = true.
Proof. destruct s; simpl; by intros ->. Qed.

Lemma includes_intro (before part after : jsstring) :
  includes (before ++ part ++ after) part = true.
Proof.
  induction before as [|c before IH]; simpl.
  - apply includes_at_start, starts_with_app.
  - rewrite IH. apply orb_true_r.
Qed.

Lemma includes_elim (s part : jsstring) :
  includes s part = true -> exists before after, s = before ++ part ++ after.
Proof.
  induction s as [|c s IH]; simpl.
  - rewrite orb_false_r. intros H.
    apply starts_with_elim in H as [rest ->]. by exists [], rest.
  - intros H. apply orb_true_iff in H as [H|H].
    + apply starts_with_elim in H as [rest ->]. by exists [], rest.
    + destruct (IH H) as (before & after & ->). by exists (c :: before), after.
Qed.

(** [includes] passes from a part of the message to the message. *)
Lemma includes_within (before s after part : jsstring) :
  includes s part = true -> includes (before ++ s ++ after) part = true.
Proof.
  intros H. apply includes_elim in H as (b & a & ->).
  replace (before ++ (b ++ part ++ a) ++ after)
    with ((before ++ b) ++ part ++ (a ++ after)).
  - apply includes_intro.
  - by rewrite <- !app_assoc.
Qed.

Lemma join_includes sep (parts : list jsstring) part :
  part ∈ parts -> includes (JSON.join sep parts) part = true.
Proof.
  induction parts as [|p parts IH]; [by intros ?%elem_of_nil|].
  intros [->|Hin]%elem_of_cons.
  - destruct parts as [|q parts]; simpl.
    + rewrite <- (app_nil_r p) at 1. apply (includes_intro []).
    + apply (includes_intro []).
  - destruct parts as [|q parts]; [by apply elem_of_nil in Hin|].
    change (JSON.join sep (p :: q :: parts))
      with (p ++ sep ++ JSON.join sep (q :: parts)).
    rewrite <- (app_nil_r (JSON.join sep (q :: parts))), app_assoc.
    apply includes_within. by apply IH.
Qed.

(** An entry of the array is in the serialization, quoted. *)
Lemma stringify_includes (a : list jsstring) entry :
  entry ∈ a -> includes (JSON.stringify a) (JSON.quote entry) = true.
Proof.
  intros Hin. unfold JSON.stringify. apply includes_within.
  apply join_includes. apply list_elem_of_fmap. by exists entry.
Qed.

Lemma errorMessage_clean : errorMessage [] [] = preface.
Proof. reflexivity. Qed.

Lemma errorMessage_malformed bad :
  bad <> [] -> errorMessage bad [] = preface ++ malformed_section bad.
Proof. destruct bad; [done|]. reflexivity. Qed.

Lemma errorMessage_duplicate warn :
  warn <> [] -> errorMessage [] warn = preface ++ duplicate_section warn.
Proof. destruct warn; [done|]. reflexivity. Qed.

Lemma errorMessage_both bad warn :
  bad <> [] -> warn <> [] ->
  errorMessage bad warn
  = preface ++ malformed_section bad ++ LF ++ duplicate_section warn.
Proof.
  destruct bad; [done|]. destruct warn; [done|]. intros _ _.
  unfold errorMessage, malformed_section, duplicate_section.
  cbn [length Nat.ltb Nat.leb]. rewrite <- !app_assoc. reflexivity.
Qed.

Lemma errorMessage_preface bad warn :
  errorMessage bad warn = preface <-> bad = [] /\ warn = [].
Proof.
  split; [|by intros [-> ->]].
  destruct bad as [|b bad], warn as [|w warn]; [done|..]; intros H; exfalso.
  - rewrite errorMessage_duplicate in H by done.
    rewrite <- (app_nil_r preface) in H at 2. by apply app_inv_head in H.
  - rewrite errorMessage_malformed in H by done.
    rewrite <- (app_nil_r preface) in H at 2. by apply app_inv_head in H.
  - rewrite errorMessage_both in H by done.
    rewrite <- (app_nil_r preface) in H at 2. by apply app_inv_head in H.
Qed.
End MessageFacts.

(** ** [verify] as a whole *)

Section VerifyFacts.
Import PluginLoader.

Lemma verify_array flags elems own :
  Object.get flags (str "replace") = VArray elems own ->
  verify flags =
  (<[str "replace" :=
       VObject (<[str "delimiters" := delimiters]> (entries (scan elems)))]>
     flags,
   if bool_decide (errorMessage (badEntries (scan elems))
                                (warnEntries (scan elems)) <> preface)
   then Throw (NonFatalError (errorMessage (badEntries (scan elems))
                                           (warnEntries (scan elems))))
   else Return tt).
Proof.
  intros Hget. unfold verify. rewrite Hget.
  unfold Object.get. rewrite !lookup_insert_eq. simpl.
  rewrite !insert_insert_eq. by case_bool_decide.
Qed.

Lemma verify_not_array flags :
  Array.isArray (Object.get flags (str "replace")) = false ->
  verify flags = (flags, Return tt).
Proof.
  unfold verify. by destruct (Object.get flags (str "replace")).
Qed.

Lemma verify_throws flags elems own :
  Object.get flags (str "replace") = VArray elems own ->
  badEntries (scan elems) <> [] \/ warnEntries (scan elems) <> [] ->
  (verify flags).2 =
  Throw (NonFatalError (errorMessage (badEntries (scan elems))
                                     (warnEntries (scan elems)))).
Proof.
  intros Hget Hsome. rewrite (verify_array _ _ _ Hget). simpl.
  rewrite bool_decide_eq_true_2; [done|].
  rewrite errorMessage_preface. intros [? ?]. by destruct Hsome.
Qed.

Lemma verify_returns flags elems own :
  Object.get flags (str "replace") = VArray elems own ->
  badEntries (scan elems) = [] -> warnEntries (scan elems) = [] ->
  (verify flags).2 = Return tt.
Proof.
  intros Hget Hbad Hwarn. rewrite (verify_array _ _ _ Hget). simpl.
  rewrite bool_decide_eq_false_2; [done|].
  rewrite Hbad, Hwarn. by intros [].
Qed.

Lemma stored_array flags elems own :
  Object.get flags (str "replace") = VArray elems own ->
  stored flags
  = VObject (<[str "delimiters" := delimiters]> (first_wins elems)).
Proof.
  intros Hget. unfold stored. rewrite (verify_array _ _ _ Hget). simpl.
  unfold Object.get. by rewrite lookup_insert_eq, entries_scan.
Qed.
End VerifyFacts.

(** ** The claims about [verify] *)

Section VerifyClaims.
Import PluginLoader.

Lemma scan_inherited pre k :
  k ∈ Object.prototype_keys -> entries (scan pre) !! k = None.
Proof. intros Hk. rewrite entries_scan. by apply first_wins_inherited. Qed.

Lemma scan_cons_app pre entry post :
  scan (pre ++ entry :: post)
  = foldl forEach_callback (forEach_callback (scan pre) entry) post.
Proof. by rewrite scan_app. Qed.

Lemma forEach_callback_duplicate st entry m0 key value more :
  RegExp.exec entry = Some (m0 :: key :: value :: more) ->
  Object.has_property (entries st) key = true ->
  forEach_callback st entry
  = {| entries := entries st; badEntries := badEntries st;
       warnEntries := warnEntries st ++ [entry] |}.
Proof. intros He Hin. unfold forEach_callback. by rewrite He, Hin. Qed.

Lemma duplicate_in_warnEntries pre entry post m0 key value more :
  RegExp.exec entry = Some (m0 :: key :: value :: more) ->
  Object.has_property (entries (scan pre)) key = true ->
  entry ∈ warnEntries (scan (pre ++ entry :: post)).
Proof.
  intros He Hin. rewrite scan_cons_app. apply warnEntries_foldl_kept.
  rewrite (forEach_callback_duplicate _ _ _ _ _ _ He Hin). simpl.
  apply elem_of_app. right. by apply list_elem_of_singleton.
Qed.

Lemma errorMessage_ends_with_duplicates bad warn :
  warn <> [] -> exists before, errorMessage bad warn = before ++ duplicate_section warn.
Proof.
  intros Hw. destruct bad as [|b bad].
  - exists preface. by apply errorMessage_duplicate.
  - exists (preface ++ malformed_section (b :: bad) ++ LF).
    rewrite errorMessage_both by done. by rewrite <- !app_assoc.
Qed.

Lemma errorMessage_starts_with_malformed bad warn :
  bad <> [] ->
  exists after, errorMessage bad warn = preface ++ malformed_section bad ++ after.
Proof.
  intros Hb. destruct warn as [|w warn].
  - exists []. rewrite app_nil_r. by apply errorMessage_malformed.
  - exists (LF ++ duplicate_section (w :: warn)). by apply errorMessage_both.
Qed.

Lemma duplicate_section_includes warn entry :
  entry ∈ warn -> includes (duplicate_section warn) (JSON.quote entry) = true.
Proof.
  intros Hin. unfold duplicate_section. apply includes_within.
  by apply stringify_includes.
Qed.

Lemma malformed_section_includes bad entry :
  entry ∈ bad -> includes (malformed_section bad) (JSON.quote entry) = true.
Proof.
  intros Hin. unfold malformed_section. apply includes_within.
  by apply stringify_includes.
Qed.

(** C1. When a well-formed entry comes with a left-hand key that is already
    in the object under construction ([key in entries]), the callback
    leaves the object as it is, so the earlier binding stays to the end of
    the scan; the entry, in full, is pushed on the duplicate list; and
    [verify] throws a NonFatalError whose message ends with the duplicate
    section and so shows the entry, quoted. The flags stored keep the
    binding too (the [delimiters] marker is written over its own key). In
    particular [["a=1", "a=2"]] stores [{a: "1"}], with the marker, and the
    message lists ["a=2"]. *)
Theorem verify_duplicate_key_first_wins :
  (forall flags own pre entry post m0 key value more,
      Object.get flags (str "replace") = VArray (pre ++ entry :: post) own ->
      RegExp.exec entry = Some (m0 :: key :: value :: more) ->
      Object.has_property (entries (scan pre)) key = true ->
      entries (scan (pre ++ [entry])) = entries (scan pre)
      /\ entries (scan (pre ++ entry :: post)) !! key
          = entries (scan pre) !! key
      /\ warnEntries (scan (pre ++ [entry]))
          = warnEntries (scan pre) ++ [entry]
      /\ entry ∈ warnEntries (scan (pre ++ entry :: post))
      /\ (exists m, stored flags = VObject m
           /\ (key <> str "delimiters" ->
                m !! key = entries (scan pre) !! key))
      /\ exists message before,
           (verify flags).2 = Throw (NonFatalError message)
           /\ message
               = before
                 ++ duplicate_section
                      (warnEntries (scan (pre ++ entry :: post)))
           /\ includes message (JSON.quote entry) = true)
  /\ verify (flags_of [str "a=1"; str "a=2"])
     = ({[ str "replace" :=
             VObject (<[str "delimiters" := delimiters]>
                        {[ str "a" := VString (str "1") ]}) ]},
        Throw (NonFatalError
          (str "plugin-replace verification failure:" ++ LF
           ++ str "- the following entries overwrite previous entries ["
           ++ [34] ++ str "a=2" ++ [34] ++ str "]."))).
Proof.
  split; [|by vm_compute].
  intros flags own pre entry post m0 key value more Hget He Hin.
  pose proof (duplicate_in_warnEntries pre entry post _ _ _ _ He Hin) as Hwarn.
  assert (entries (scan (pre ++ entry :: post)) !! key
          = entries (scan pre) !! key) as Hkept.
  { rewrite scan_app, entries_foldl by apply scan_inherited.
    rewrite lookup_union.
    unfold Object.has_property in Hin. apply orb_true_iff in Hin as [Hown|Hpro].
    - apply bool_decide_eq_true_1 in Hown as [x Hx]. rewrite Hx.
      by destruct (first_wins (entry :: post) !! key).
    - apply bool_decide_eq_true_1 in Hpro.
      rewrite scan_inherited, first_wins_inherited by done. done. }
  rewrite scan_snoc, (forEach_callback_duplicate _ _ _ _ _ _ He Hin). simpl.
  repeat split; [done..| |].
  - exists (<[str "delimiters" := delimiters]>
              (first_wins (pre ++ entry :: post))).
    split; [by apply (stored_array _ (pre ++ entry :: post) own)|].
    intros Hkey. rewrite lookup_insert_ne by done.
    by rewrite <- entries_scan.
  - assert (warnEntries (scan (pre ++ entry :: post)) <> []) as Hne.
    { intros Hnil. rewrite Hnil in Hwarn. by apply elem_of_nil in Hwarn. }
    destruct (errorMessage_ends_with_duplicates
                (badEntries (scan (pre ++ entry :: post))) _ Hne)
      as [before Hmsg].
    eexists _, before. split; [|split].
    + apply (verify_throws _ (pre ++ entry :: post) own); [done|by right].
    + done.
    + rewrite Hmsg. rewrite <- (app_nil_r (duplicate_section _)).
      apply includes_within. by apply duplicate_section_includes.
Qed.

(** C3. For an array-valued flag, [verify] puts the object built by the
    loop in place of the array, whether it then returns or throws: the
    flags it leaves hold the ReplacementMap of the entries (well-formed,
    first entry of a key winning) under the [delimiters] marker, and a
    thrown error finds that object stored, not the array. *)
Theorem verify_stores_partial_map flags elems own :
  Object.get flags (str "replace") = VArray elems own ->
  (verify flags).1
  = <[str "replace" :=
        VObject (<[str "delimiters" := delimiters]> (first_wins elems))]> flags
  /\ entries (scan elems) = first_wins elems
  /\ (forall e, (verify flags).2 = Throw e ->
        stored flags
        = VObject (<[str "delimiters" := delimiters]> (first_wins elems))
        /\ stored flags <> VArray elems own)
  /\ (badEntries (scan elems) <> [] \/ warnEntries (scan elems) <> [] ->
       exists message, (verify flags).2 = Throw (NonFatalError message)).
Proof.
  intros Hget. split; [|split; [|split]].
  - rewrite (verify_array _ _ _ Hget). simpl. by rewrite entries_scan.
  - apply entries_scan.
  - intros e _. by rewrite (stored_array _ _ _ Hget).
  - intros Hsome. eexists. by apply (verify_throws _ elems own).
Qed.

(** C10. For an array-valued flag, the object [verify] stores carries
    [delimiters: ['', '']], and it does so before the message is looked
    at: the marker is there when [verify] returns and when it throws. *)
Theorem verify_marks_delimiters flags elems own :
  Object.get flags (str "replace") = VArray elems own ->
  exists m,
    stored flags = VObject m
    /\ m !! str "delimiters" = Some (VArray [ []; [] ] ∅)
    /\ (forall message,
          (verify flags).2 = Throw (NonFatalError message) ->
          Object.get (verify flags).1 (str "replace") = VObject m)
    /\ ((verify flags).2 = Return tt ->
          Object.get (verify flags).1 (str "replace") = VObject m).
Proof.
  intros Hget. eexists. split; [by apply (stored_array _ elems own)|].
  split; [by rewrite lookup_insert_eq|].
  split; intros; by apply (stored_array _ elems own).
Qed.

Lemma delimiters_not_inherited : str "delimiters" ∉ Object.prototype_keys.
Proof. apply (bool_decide_unpack _). by vm_compute. Qed.

(** C9. A well-formed entry whose left-hand key names a property that
    [{}] inherits from [Object.prototype] is found by [in] although the
    object has no such property of its own: the entry goes to the
    duplicate list, the key is bound neither in the object built nor in
    the flags stored, and [verify] throws. *)
Theorem inherited_key_counts_as_duplicate
    flags own pre entry post m0 key value more :
  Object.get flags (str "replace") = VArray (pre ++ entry :: post) own ->
  RegExp.exec entry = Some (m0 :: key :: value :: more) ->
  key ∈ Object.prototype_keys ->
  entries (scan pre) !! key = None
  /\ Object.has_property (entries (scan pre)) key = true
  /\ entry ∈ warnEntries (scan (pre ++ entry :: post))
  /\ entries (scan (pre ++ entry :: post)) !! key = None
  /\ (exists m, stored flags = VObject m /\ m !! key = None)
  /\ exists message,
       (verify flags).2 = Throw (NonFatalError message)
       /\ includes message (JSON.quote entry) = true.
Proof.
  intros Hget He Hkey.
  pose proof (has_property_inherited (entries (scan pre)) key Hkey) as Hin.
  pose proof (duplicate_in_warnEntries pre entry post _ _ _ _ He Hin) as Hwarn.
  split; [by apply scan_inherited|]. split; [done|]. split; [done|].
  split; [by apply scan_inherited|]. split.
  - eexists. split; [by apply (stored_array _ (pre ++ entry :: post) own)|].
    rewrite lookup_insert_ne.
    + by apply first_wins_inherited.
    + intros <-. by apply delimiters_not_inherited.
  - assert (warnEntries (scan (pre ++ entry :: post)) <> []) as Hne.
    { intros Hnil. rewrite Hnil in Hwarn. by apply elem_of_nil in Hwarn. }
    destruct (errorMessage_ends_with_duplicates
                (badEntries (scan (pre ++ entry :: post))) _ Hne)
      as [before Hmsg].
    eexists. split.
    + apply (verify_throws _ (pre ++ entry :: post) own); [done|by right].
    + rewrite Hmsg. rewrite <- (app_nil_r (duplicate_section _)).
      apply includes_within. by apply duplicate_section_includes.
Qed.

Lemma malformed_in_badEntries elems entry :
  entry ∈ elems -> key_value entry = None -> entry ∈ badEntries (scan elems).
Proof. intros Hin He. rewrite badEntries_scan. by apply list_elem_of_filter. Qed.

Lemma malformed_section_states_shape bad :
  includes (malformed_section bad) (str "'<xxx>=<yyy>'") = true.
Proof.
  unfold malformed_section. rewrite app_assoc.
  change (str " each entry must be a 'string' in the format of '<xxx>=<yyy>'.")
    with (str " each entry must be a 'string' in the format of "
          ++ str "'<xxx>=<yyy>'" ++ str ".").
  rewrite app_assoc. apply includes_intro.
Qed.

(** C5. When some entry of the array has no [=] with text on both sides
    (no [=] at all, or nothing before or nothing after each one), [verify]
    throws a NonFatalError whose message, after the preface, has the
    malformed section: the serialized list of the entries that did not
    match, each such entry in it, followed by the required shape
    ['<xxx>=<yyy>']. The callback leaves the object untouched on such an
    entry. *)
Theorem verify_malformed_entries flags elems own :
  Object.get flags (str "replace") = VArray elems own ->
  (exists entry, entry ∈ elems /\ text_around_equals entry = false) ->
  exists message after,
    (verify flags).2 = Throw (NonFatalError message)
    /\ message
        = preface ++ malformed_section (badEntries (scan elems)) ++ after
    /\ includes message (str "'<xxx>=<yyy>'") = true
    /\ forall entry,
         entry ∈ elems -> text_around_equals entry = false ->
         entry ∈ badEntries (scan elems)
         /\ includes message (JSON.quote entry) = true
         /\ forall st, entries (forEach_callback st entry) = entries st.
Proof.
  intros Hget (bad & Hbad & Hshape).
  assert (forall entry, text_around_equals entry = false ->
                        key_value entry = None) as Hnull.
  { intros entry H. by apply key_value_null, exec_null. }
  assert (badEntries (scan elems) <> []) as Hne.
  { intros Hnil. pose proof (malformed_in_badEntries _ _ Hbad (Hnull _ Hshape)) as H.
    rewrite Hnil in H. by apply elem_of_nil in H. }
  destruct (errorMessage_starts_with_malformed _ (warnEntries (scan elems)) Hne)
    as [after Hmsg].
  eexists _, after. split; [|split; [done|split]].
  - apply (verify_throws _ elems own); [done|by left].
  - rewrite Hmsg. apply includes_within, malformed_section_states_shape.
  - intros entry Hin He. split; [|split].
    + by apply malformed_in_badEntries, Hnull.
    + rewrite Hmsg. apply includes_within, malformed_section_includes.
      by apply malformed_in_badEntries, Hnull.
    + intros st. rewrite forEach_callback_key_value. by rewrite (Hnull _ He).
Qed.

(** C8. When the array holds an entry that does not match and a
    well-formed entry whose key is already in the object, [verify] throws
    one NonFatalError; its message is the preface, the malformed section,
    a line feed and the duplicate section, in this order, the two entries
    being in their lists. *)
Theorem verify_malformed_and_duplicate
    flags own broken pre entry post m0 key value more :
  Object.get flags (str "replace") = VArray (pre ++ entry :: post) own ->
  broken ∈ pre ++ entry :: post ->
  key_value broken = None ->
  RegExp.exec entry = Some (m0 :: key :: value :: more) ->
  Object.has_property (entries (scan pre)) key = true ->
  let st := scan (pre ++ entry :: post) in
  (verify flags).2
  = Throw (NonFatalError
      (preface ++ malformed_section (badEntries st) ++ LF
       ++ duplicate_section (warnEntries st)))
  /\ broken ∈ badEntries st
  /\ entry ∈ warnEntries st.
Proof.
  intros Hget Hbroken Hnull He Hin. cbv zeta.
  pose proof (malformed_in_badEntries _ _ Hbroken Hnull) as Hbad.
  pose proof (duplicate_in_warnEntries pre entry post _ _ _ _ He Hin) as Hwarn.
  assert (badEntries (scan (pre ++ entry :: post)) <> []) as Hb.
  { intros H. rewrite H in Hbad. by apply elem_of_nil in Hbad. }
  assert (warnEntries (scan (pre ++ entry :: post)) <> []) as Hw.
  { intros H. rewrite H in Hwarn. by apply elem_of_nil in Hwarn. }
  split; [|done].
  rewrite (verify_throws _ (pre ++ entry :: post) own); [|done|by left].
  by rewrite errorMessage_both.
Qed.

(** C2, amended. For non-empty [a] and [b] on a single line, [a] without
    [=] and not [delimiters] nor the name of a property inherited from
    [Object.prototype], and [b] with no [=] other than as its last code
    unit, [verify] of the one-element array [["a=b"]] returns without an
    error and stores [{a: "b"}], under the [delimiters] marker. *)
Theorem verify_single_entry flags own (a b : jsstring) :
  Object.get flags (str "replace") = VArray [a ++ EQUALS :: b] own ->
  a <> [] -> b <> [] ->
  existsb (N.eqb EQUALS) a = false ->
  single_line a = true -> single_line b = true ->
  equals_only_last b = true ->
  a ∉ Object.prototype_keys -> a <> str "delimiters" ->
  verify flags
  = (<[str "replace" :=
         VObject (<[str "delimiters" := delimiters]> {[ a := VString b ]})]>
       flags,
     Return tt)
  /\ exists m, stored flags = VObject m
       /\ m !! a = Some (VString b)
       /\ forall k, k <> a -> k <> str "delimiters" -> m !! k = None.
Proof.
  intros Hget Ha Hb _ Hla Hlb Hlast Hpro Hdel.
  assert (scan [a ++ EQUALS :: b]
          = {| entries := {[ a := VString b ]}; badEntries := [];
               warnEntries := [] |}) as Hscan.
  { unfold scan, no_entries. simpl. unfold forEach_callback.
    rewrite exec_split by done.
    unfold Object.has_property. simpl.
    rewrite lookup_empty, (bool_decide_eq_false_2 _ Hpro).
    rewrite bool_decide_eq_false_2; [done|]. by intros [? ?]. }
  split.
  - rewrite (verify_array _ _ _ Hget), Hscan. cbn [badEntries warnEntries entries].
    by rewrite errorMessage_clean, bool_decide_eq_false_2 by (by intros []).
  - eexists. split; [|split].
    + unfold stored. rewrite (verify_array _ _ _ Hget), Hscan. simpl.
      unfold Object.get. by rewrite lookup_insert_eq.
    + rewrite lookup_insert_ne by done. apply lookup_singleton_eq.
    + intros k Hk Hkd. rewrite lookup_insert_ne by done.
      by apply lookup_singleton_ne.
Qed.

(** C4, amended. In a single-line entry the separator is the rightmost [=]
    that has text on both sides: for non-empty [k] and [v] with no [=] in
    [v] other than as its last code unit, the entry [k=v] matches with
    left-hand text [k] and right-hand text [v], and these are the key and
    the value [verify] binds. An [=] that ends the entry is not the
    separator. *)
Theorem rightmost_equals_with_text_separates (k v : jsstring) :
  k <> [] -> v <> [] ->
  single_line k = true -> single_line v = true ->
  equals_only_last v = true ->
  RegExp.exec (k ++ EQUALS :: v) = Some [k ++ EQUALS :: v; k; v]
  /\ key_value (k ++ EQUALS :: v) = Some (k, v)
  /\ forall st,
       Object.has_property (entries st) k = false ->
       entries (forEach_callback st (k ++ EQUALS :: v))
       = <[k := VString v]> (entries st).
Proof.
  intros Hk Hv Hlk Hlv Hlast.
  pose proof (exec_split k v Hk Hv Hlk Hlv Hlast) as He.
  split; [done|]. split.
  - unfold key_value. by rewrite He.
  - intros st Hin. unfold forEach_callback. by rewrite He, Hin.
Qed.
End VerifyClaims.

(** ** The claims about [default] *)

Section DefaultClaims.
Import PluginLoader.
Variable JSON_parse : jsstring -> jsstring + JsValue.
Variable cli_env_prefix : jsstring.
Variable process_env : gmap jsstring jsstring.

(** The name of the variable is never one that [{}] inherits, so that
    [envVars[envVar]] on the empty object of a [null] context is
    [undefined]. *)
Lemma envVar_not_inherited :
  cli_env_prefix ++ str "_REPLACE" ∉ Object.prototype_keys.
Proof.
  intros H.
  assert (last (cli_env_prefix ++ str "_REPLACE") = Some 69) as Hlast.
  { change (str "_REPLACE") with (str "_REPLAC" ++ [69]).
    by rewrite app_assoc, last_snoc. }
  unfold Object.prototype_keys in H. simpl in H.
  repeat (apply elem_of_cons in H as [H|H];
          [rewrite H in Hlast; by vm_compute in Hlast|]).
  by apply elem_of_nil in H.
Qed.

Lemma default_null_context :
  default JSON_parse cli_env_prefix process_env VNull = Return VUndefined.
Proof. unfold default. by rewrite lookup_empty. Qed.

(** C6, amended. Called with a context that is not [null], the resolver
    reads [<PREFIX>_REPLACE]: unset, it returns [undefined]; not JSON, it
    throws a NonFatalError that names the variable and ends with the text
    of the parse error; JSON but not an array, it throws a NonFatalError
    that asks for a JSON array; a JSON array, it returns the array. Called
    with a [null] context it looks at no variable and returns
    [undefined]. *)
Theorem default_resolves (context : JsValue) :
  (context = VNull ->
   default JSON_parse cli_env_prefix process_env context = Return VUndefined)
  /\ (context <> VNull ->
      (process_env !! (cli_env_prefix ++ str "_REPLACE") = None ->
       default JSON_parse cli_env_prefix process_env context
       = Return VUndefined)
      /\ (forall text message,
            process_env !! (cli_env_prefix ++ str "_REPLACE") = Some text ->
            JSON_parse text = inl message ->
            default JSON_parse cli_env_prefix process_env context
            = Throw (NonFatalError
                (str "Could not parse '" ++ cli_env_prefix ++ str "_REPLACE"
                 ++ str "' as a JSON array;" ++ LF ++ message)))
      /\ (forall text result,
            process_env !! (cli_env_prefix ++ str "_REPLACE") = Some text ->
            JSON_parse text = inr result ->
            Array.isArray result = false ->
            default JSON_parse cli_env_prefix process_env context
            = Throw (NonFatalError
                (str "Please format '" ++ cli_env_prefix ++ str "_REPLACE"
                 ++ str "' as a JSON array.")))
      /\ (forall text result,
            process_env !! (cli_env_prefix ++ str "_REPLACE") = Some text ->
            JSON_parse text = inr result ->
            Array.isArray result = true ->
            default JSON_parse cli_env_prefix process_env context
            = Return result)).
Proof.
  split; [intros ->; apply default_null_context|].
  intros Hctx.
  assert (default JSON_parse cli_env_prefix process_env context
          = default JSON_parse cli_env_prefix process_env VUndefined) as ->.
  { by destruct context. }
  unfold default. repeat split.
  - by intros ->.
  - intros text message -> ->. by rewrite <- !app_assoc.
  - intros text result -> -> ->. by rewrite <- !app_assoc.
  - by intros text result -> -> ->.
Qed.

(** The CommonJS revision has no context to look at: it is the resolver
    above on a context that is not [null]. *)
Lemma default_cjs :
  PluginLoaderCjs.default JSON_parse cli_env_prefix process_env
  = default JSON_parse cli_env_prefix process_env VUndefined.
Proof. reflexivity. Qed.
End DefaultClaims.

(** ** The claims about [getInputPlugin] *)

Section FactoryClaims.
Import PluginLoader.
Context {Plugin : Type} (replace : JsValue -> Plugin).

(** C7, amended. With [cliFlags] there and [cliFlags.replace] an object,
    the factory returns [replace] of that object: in the current revision
    with [preventAssignment] set to [true] and every other entry kept, in
    the CommonJS revision as the object is, with no option added. An
    array of raw strings is an object to [typeof] and is handed over in
    the same way, in both revisions. In both the factory returns nothing
    when [typeof cliFlags.replace] is not [object] ([replace] absent
    included), when [cliFlags] is absent and when no bundle data is
    given. *)
Theorem getInputPlugin_by_type (bundleData : option BundleData) :
  (forall flags m,
      bundleData = Some {| cliFlags := Some flags |} ->
      Object.get flags (str "replace") = VObject m ->
      (getInputPlugin replace bundleData).2
      = Return (Some (replace
          (VObject (<[str "preventAssignment" := VBoolean true]> m))))
      /\ <[str "preventAssignment" := VBoolean true]> m
            !! str "preventAssignment" = Some (VBoolean true)
      /\ forall k, k <> str "preventAssignment" ->
           <[str "preventAssignment" := VBoolean true]> m !! k = m !! k)
  /\ (forall flags elems own,
        bundleData = Some {| cliFlags := Some flags |} ->
        Object.get flags (str "replace") = VArray elems own ->
        (getInputPlugin replace bundleData).2
        = Return (Some (replace
            (VArray elems (<[str "preventAssignment" := VBoolean true]> own)))))
  /\ (forall flags,
        bundleData = Some {| cliFlags := Some flags |} ->
        typeof (Object.get flags (str "replace")) <> TObject ->
        (getInputPlugin replace bundleData).2 = Return None)
  /\ (bundleData = Some {| cliFlags := None |} \/ bundleData = None ->
      (getInputPlugin replace bundleData).2 = Return None)
  /\ (forall flags m,
        bundleData = Some {| cliFlags := Some flags |} ->
        Object.get flags (str "replace") = VObject m ->
        PluginLoaderCjs.getInputPlugin replace bundleData
        = Return (Some (replace (VObject m))))
  /\ (forall flags elems own,
        bundleData = Some {| cliFlags := Some flags |} ->
        Object.get flags (str "replace") = VArray elems own ->
        PluginLoaderCjs.getInputPlugin replace bundleData
        = Return (Some (replace (VArray elems own))))
  /\ (forall flags,
        bundleData = Some {| cliFlags := Some flags |} ->
        typeof (Object.get flags (str "replace")) <> TObject ->
        PluginLoaderCjs.getInputPlugin replace bundleData = Return None)
  /\ (bundleData = Some {| cliFlags := None |} \/ bundleData = None ->
      PluginLoaderCjs.getInputPlugin replace bundleData = Return None).
Proof.
  repeat split.
  - intros. subst. unfold getInputPlugin. simpl. by rewrite H0.
  - apply lookup_insert_eq.
  - intros k Hk. by apply lookup_insert_ne.
  - intros flags elems own -> Hget. unfold getInputPlugin. simpl.
    by rewrite Hget.
  - intros flags -> Hty. unfold getInputPlugin. simpl.
    by destruct (Object.get flags (str "replace")).
  - by intros [-> | ->].
  - intros flags m -> Hget. unfold PluginLoaderCjs.getInputPlugin. simpl.
    by rewrite Hget.
  - intros flags elems own -> Hget. unfold PluginLoaderCjs.getInputPlugin.
    simpl. by rewrite Hget.
  - intros flags -> Hty. unfold PluginLoaderCjs.getInputPlugin. simpl.
    by destruct (Object.get flags (str "replace")).
  - by intros [-> | ->].
Qed.

Lemma getInputPlugin_null flags :
  Object.get flags (str "replace") = VNull ->
  (getInputPlugin replace (Some {| cliFlags := Some flags |})).2
  = Throw TypeError.
Proof. intros Hget. unfold getInputPlugin. simpl. by rewrite Hget. Qed.

(** [Object.assign] writes to the object the flags hold. *)
Lemma getInputPlugin_marks_flags flags m :
  Object.get flags (str "replace") = VObject m ->
  (getInputPlugin replace (Some {| cliFlags := Some flags |})).1
  = {| cliFlags :=
         Some (<[str "replace" :=
                   VObject (<[str "preventAssignment" := VBoolean true]> m)]>
                 flags) |}.
Proof. intros Hget. unfold getInputPlugin. simpl. by rewrite Hget. Qed.

(** From the raw flags to the transform: whatever [verify] says of an
    array, the factory then builds the transform from the ReplacementMap of
    its entries, the marker and the safety option. *)
Lemma getInputPlugin_after_verify flags elems own :
  Object.get flags (str "replace") = VArray elems own ->
  (getInputPlugin replace (Some {| cliFlags := Some (verify flags).1 |})).2
  = Return (Some (replace
      (VObject (<[str "preventAssignment" := VBoolean true]>
                  (<[str "delimiters" := delimiters]> (first_wins elems)))))).
Proof.
  intros Hget.
  pose proof (stored_array _ _ _ Hget) as Hst. unfold stored in Hst.
  unfold getInputPlugin. simpl. by rewrite Hst.
Qed.

(** The CommonJS revision adds no option: what [replace] is given is
    [cliFlags.replace] itself. *)
Lemma getInputPlugin_cjs flags v :
  Object.get flags (str "replace") = v -> typeof v = TObject ->
  v <> VNull ->
  PluginLoaderCjs.getInputPlugin replace (Some {| cliFlags := Some flags |})
  = Return (Some (replace v)).
Proof.
  intros Hget Hty Hnull. unfold PluginLoaderCjs.getInputPlugin. simpl.
  rewrite Hget, Hty. by destruct v.
Qed.

(** On [replace: null] both revisions end in a TypeError: the current one
    in [Object.assign], the CommonJS one in [replace]. *)
Lemma getInputPlugin_cjs_null flags :
  Object.get flags (str "replace") = VNull ->
  PluginLoaderCjs.getInputPlugin replace (Some {| cliFlags := Some flags |})
  = Throw TypeError.
Proof.
  intros Hget. unfold PluginLoaderCjs.getInputPlugin. simpl. by rewrite Hget.
Qed.
End FactoryClaims.

(** ** Worked inputs *)

Ltac evaluate := vm_compute; reflexivity.

Section Worked.
Import PluginLoader.

Lemma verify_duplicate_key_first_wins_witness :
  Object.get (flags_of [str "x=1"; str "y=2"; str "x=3"]) (str "replace")
  = VArray ([str "x=1"; str "y=2"] ++ str "x=3" :: []) ∅
  /\ RegExp.exec (str "x=3") = Some [str "x=3"; str "x"; str "3"]
  /\ Object.has_property (entries (scan [str "x=1"; str "y=2"])) (str "x")
     = true
  /\ entries (scan ([str "x=1"; str "y=2"] ++ [str "x=3"]))
     = entries (scan [str "x=1"; str "y=2"]).
Proof.
  assert (Object.get (flags_of [str "x=1"; str "y=2"; str "x=3"])
            (str "replace")
          = VArray ([str "x=1"; str "y=2"] ++ str "x=3" :: []) ∅) as H1
    by evaluate.
  assert (RegExp.exec (str "x=3") = Some [str "x=3"; str "x"; str "3"]) as H2
    by evaluate.
  assert (Object.has_property (entries (scan [str "x=1"; str "y=2"])) (str "x")
          = true) as H3
    by evaluate.
  split; [exact H1|]. split; [exact H2|]. split; [exact H3|].
  exact (proj1 (proj1 verify_duplicate_key_first_wins _ _ _ _ _ _ _ _ _
                  H1 H2 H3)).
Defined.

Lemma verify_stores_partial_map_witness :
  Object.get (flags_of [str "a=1"; str "bad"; str "a=2"]) (str "replace")
  = VArray [str "a=1"; str "bad"; str "a=2"] ∅
  /\ (verify (flags_of [str "a=1"; str "bad"; str "a=2"])).1
     = <[str "replace" :=
           VObject (<[str "delimiters" := delimiters]>
                      (first_wins [str "a=1"; str "bad"; str "a=2"]))]>
         (flags_of [str "a=1"; str "bad"; str "a=2"]).
Proof.
  assert (Object.get (flags_of [str "a=1"; str "bad"; str "a=2"])
            (str "replace")
          = VArray [str "a=1"; str "bad"; str "a=2"] ∅) as H1
    by evaluate.
  split; [exact H1|].
  exact (proj1 (verify_stores_partial_map _ _ _ H1)).
Defined.

(** The flags [["a=1", "bad", "a=2"]] leave behind: [{a: "1"}] with the
    marker, although [verify] throws. *)
Example verify_a1_bad_a2 :
  stored (flags_of [str "a=1"; str "bad"; str "a=2"])
  = VObject (<[str "delimiters" := delimiters]>
               {[ str "a" := VString (str "1") ]})
  /\ (verify (flags_of [str "a=1"; str "bad"; str "a=2"])).2
     = Throw (NonFatalError
         (preface ++ malformed_section [str "bad"] ++ LF
          ++ duplicate_section [str "a=2"])).
Proof. split; by vm_compute. Qed.

Lemma verify_marks_delimiters_witness :
  Object.get (flags_of [str "abc"]) (str "replace") = VArray [str "abc"] ∅
  /\ exists m,
       stored (flags_of [str "abc"]) = VObject m
       /\ m !! str "delimiters" = Some (VArray [ []; [] ] ∅)
       /\ (forall message,
             (verify (flags_of [str "abc"])).2 = Throw (NonFatalError message) ->
             Object.get (verify (flags_of [str "abc"])).1 (str "replace")
             = VObject m)
       /\ ((verify (flags_of [str "abc"])).2 = Return tt ->
             Object.get (verify (flags_of [str "abc"])).1 (str "replace")
             = VObject m).
Proof.
  assert (Object.get (flags_of [str "abc"]) (str "replace")
          = VArray [str "abc"] ∅) as H1
    by evaluate.
  split; [exact H1|].
  exact (verify_marks_delimiters _ _ _ H1).
Defined.

Lemma inherited_key_counts_as_duplicate_witness :
  Object.get (flags_of [str "a=1"; str "toString=4"]) (str "replace")
  = VArray ([str "a=1"] ++ str "toString=4" :: []) ∅
  /\ RegExp.exec (str "toString=4")
     = Some [str "toString=4"; str "toString"; str "4"]
  /\ str "toString" ∈ Object.prototype_keys
  /\ entries (scan [str "a=1"]) !! str "toString" = None.
Proof.
  assert (Object.get (flags_of [str "a=1"; str "toString=4"]) (str "replace")
          = VArray ([str "a=1"] ++ str "toString=4" :: []) ∅) as H1
    by evaluate.
  assert (RegExp.exec (str "toString=4")
          = Some [str "toString=4"; str "toString"; str "4"]) as H2
    by evaluate.
  assert (str "toString" ∈ Object.prototype_keys) as H3
    by (apply (bool_decide_unpack _); vm_compute; exact I).
  split; [exact H1|]. split; [exact H2|]. split; [exact H3|].
  exact (proj1 (inherited_key_counts_as_duplicate _ _ _ _ _ _ _ _ _ H1 H2 H3)).
Defined.

Lemma verify_malformed_entries_witness :
  Object.get (flags_of [str "abc"]) (str "replace") = VArray [str "abc"] ∅
  /\ (exists entry, entry ∈ [str "abc"] /\ text_around_equals entry = false)
  /\ exists message after,
       (verify (flags_of [str "abc"])).2 = Throw (NonFatalError message)
       /\ message
           = preface ++ malformed_section (badEntries (scan [str "abc"]))
             ++ after
       /\ includes message (str "'<xxx>=<yyy>'") = true
       /\ forall entry,
            entry ∈ [str "abc"] -> text_around_equals entry = false ->
            entry ∈ badEntries (scan [str "abc"])
            /\ includes message (JSON.quote entry) = true
            /\ forall st, entries (forEach_callback st entry) = entries st.
Proof.
  assert (Object.get (flags_of [str "abc"]) (str "replace")
          = VArray [str "abc"] ∅) as H1
    by evaluate.
  assert (exists entry, entry ∈ [str "abc"] /\ text_around_equals entry = false)
    as H2.
  { exists (str "abc"). split; [left|reflexivity]. }
  split; [exact H1|]. split; [exact H2|].
  exact (verify_malformed_entries _ _ _ H1 H2).
Defined.

(** The specification's combined failure, [["bad", "a=1", "a=2"]]. *)
Lemma verify_malformed_and_duplicate_witness :
  Object.get (flags_of [str "bad"; str "a=1"; str "a=2"]) (str "replace")
  = VArray ([str "bad"; str "a=1"] ++ str "a=2" :: []) ∅
  /\ str "bad" ∈ [str "bad"; str "a=1"] ++ str "a=2" :: []
  /\ key_value (str "bad") = None
  /\ RegExp.exec (str "a=2") = Some [str "a=2"; str "a"; str "2"]
  /\ Object.has_property (entries (scan [str "bad"; str "a=1"])) (str "a")
     = true
  /\ (verify (flags_of [str "bad"; str "a=1"; str "a=2"])).2
     = Throw (NonFatalError
         (preface
          ++ malformed_section
               (badEntries (scan ([str "bad"; str "a=1"] ++ str "a=2" :: [])))
          ++ LF
          ++ duplicate_section
               (warnEntries (scan ([str "bad"; str "a=1"] ++ str "a=2" :: []))))).
Proof.
  assert (Object.get (flags_of [str "bad"; str "a=1"; str "a=2"])
            (str "replace")
          = VArray ([str "bad"; str "a=1"] ++ str "a=2" :: []) ∅) as H1
    by evaluate.
  assert (str "bad" ∈ [str "bad"; str "a=1"] ++ str "a=2" :: []) as H2
    by (simpl; left).
  assert (key_value (str "bad") = None) as H3 by evaluate.
  assert (RegExp.exec (str "a=2") = Some [str "a=2"; str "a"; str "2"]) as H4
    by evaluate.
  assert (Object.has_property (entries (scan [str "bad"; str "a=1"])) (str "a")
          = true) as H5
    by evaluate.
  split; [exact H1|]. split; [exact H2|]. split; [exact H3|].
  split; [exact H4|]. split; [exact H5|].
  exact (proj1 (verify_malformed_and_duplicate _ _ _ _ _ _ _ _ _ _
                  H1 H2 H3 H4 H5)).
Defined.

(** The message of the combined failure, letter by letter. *)
Example verify_bad_a1_a2_message :
  (verify (flags_of [str "bad"; str "a=1"; str "a=2"])).2
  = Throw (NonFatalError
      (str "plugin-replace verification failure:" ++ LF
       ++ str "- can not parse [" ++ [34] ++ str "bad" ++ [34]
       ++ str "] each entry must be a 'string' in the format of '<xxx>=<yyy>'."
       ++ LF
       ++ str "- the following entries overwrite previous entries ["
       ++ [34] ++ str "a=2" ++ [34] ++ str "].")).
Proof. by vm_compute. Qed.

Lemma verify_single_entry_witness :
  Object.get (flags_of [str "a=b"]) (str "replace")
  = VArray [str "a" ++ EQUALS :: str "b"] ∅
  /\ verify (flags_of [str "a=b"])
     = (<[str "replace" :=
            VObject (<[str "delimiters" := delimiters]>
                       {[ str "a" := VString (str "b") ]})]>
          (flags_of [str "a=b"]),
        Return tt).
Proof.
  assert (Object.get (flags_of [str "a=b"]) (str "replace")
          = VArray [str "a" ++ EQUALS :: str "b"] ∅) as H1
    by evaluate.
  split; [exact H1|].
  refine (proj1 (verify_single_entry _ _ (str "a") (str "b") H1 _ _ _ _ _ _ _ _)).
  - intros H. vm_compute in H. discriminate H.
  - intros H. vm_compute in H. discriminate H.
  - evaluate.
  - evaluate.
  - evaluate.
  - evaluate.
  - intros H. apply (bool_decide_pack _) in H. vm_compute in H. exact H.
  - intros H. vm_compute in H. discriminate H.
Defined.

Lemma rightmost_equals_with_text_separates_witness :
  RegExp.exec (str "a=b" ++ EQUALS :: str "c")
  = Some [str "a=b" ++ EQUALS :: str "c"; str "a=b"; str "c"]
  /\ key_value (str "a=b=c") = Some (str "a=b", str "c").
Proof.
  assert (str "a=b" <> []) as H1 by (intros H; vm_compute in H; discriminate H).
  assert (str "c" <> []) as H2 by (intros H; vm_compute in H; discriminate H).
  assert (single_line (str "a=b") = true) as H3 by evaluate.
  assert (single_line (str "c") = true) as H4 by evaluate.
  assert (equals_only_last (str "c") = true) as H5 by evaluate.
  pose proof (rightmost_equals_with_text_separates _ _ H1 H2 H3 H4 H5) as R.
  split; [exact (proj1 R)|exact (proj1 (proj2 R))].
Defined.

(** C2 as stated fails on the code: the key [toString] is found by [in]
    and [verify] throws; a [b] with an inner [=] moves the separator; the
    key [delimiters] is written over by the marker; and a line terminator
    cuts the match. *)
Lemma verify_single_entry_counterexample :
  ((verify (flags_of [str "toString=1"])).2
   = Throw (NonFatalError (preface ++ duplicate_section [str "toString=1"]))
   /\ stored (flags_of [str "toString=1"])
      = VObject {[ str "delimiters" := delimiters ]})
  /\ stored (flags_of [str "a" ++ EQUALS :: str "b=c"])
     = VObject (<[str "delimiters" := delimiters]>
                  {[ str "a=b" := VString (str "c") ]})
  /\ verify (flags_of [str "delimiters=x"])
     = ({[ str "replace" := VObject {[ str "delimiters" := delimiters ]} ]},
        Return tt)
  /\ stored (flags_of [str "a" ++ EQUALS :: (str "1" ++ LF ++ str "2")])
     = VObject (<[str "delimiters" := delimiters]>
                  {[ str "a" := VString (str "1") ]}).
Proof. repeat split; by vm_compute. Qed.

(** C4 as stated fails on the code: in ["a=b="] the last [=] has nothing
    after it, and the key is [a], the value [b=]; in a two-line entry the
    match stays on the first line that has one. *)
Lemma last_equals_counterexample :
  (split_last_equals (str "a=b=") = Some (str "a=b", [])
   /\ RegExp.exec (str "a=b=") = Some [str "a=b="; str "a"; str "b="]
   /\ stored (flags_of [str "a=b="])
      = VObject (<[str "delimiters" := delimiters]>
                   {[ str "a" := VString (str "b=") ]}))
  /\ split_last_equals (str "a=b" ++ LF ++ str "c=d")
     = Some (str "a=b" ++ LF ++ str "c", str "d")
  /\ RegExp.exec (str "a=b" ++ LF ++ str "c=d")
     = Some [str "a=b"; str "a"; str "b"].
Proof. repeat split; by vm_compute. Qed.

(** The fallback of the specification: the default is the parsed array,
    and its verification gives [{x: "1", y: "2"}]. *)
Lemma default_resolves_witness :
  env_x1_y2 !! (str "DEPLOY" ++ str "_REPLACE") = Some (JSON.stringify x1_y2)
  /\ parse_x1_y2 (JSON.stringify x1_y2) = inr (array_of x1_y2)
  /\ default parse_x1_y2 (str "DEPLOY") env_x1_y2 (VObject ∅)
     = Return (array_of x1_y2).
Proof.
  assert (env_x1_y2 !! (str "DEPLOY" ++ str "_REPLACE")
          = Some (JSON.stringify x1_y2)) as H1
    by evaluate.
  assert (parse_x1_y2 (JSON.stringify x1_y2) = inr (array_of x1_y2)) as H2
    by evaluate.
  split; [exact H1|]. split; [exact H2|].
  assert (VObject ∅ <> VNull) as Hctx by discriminate.
  exact (proj2 (proj2 (proj2
           (proj2 (default_resolves parse_x1_y2 (str "DEPLOY") env_x1_y2
                     (VObject ∅)) Hctx)))
           _ _ H1 H2 eq_refl).
Defined.

Example verify_x1_y2 :
  verify (flags_of x1_y2)
  = ({[ str "replace" :=
          VObject (<[str "delimiters" := delimiters]>
                     (<[str "x" := VString (str "1")]>
                        {[ str "y" := VString (str "2") ]})) ]},
     Return tt).
Proof. by vm_compute. Qed.

(** C6 as stated fails on the code: with a [null] context the variable
    holds a JSON array and the resolver still returns [undefined]. *)
Lemma default_null_context_counterexample :
  env_x1_y2 !! (str "DEPLOY" ++ str "_REPLACE") = Some (JSON.stringify x1_y2)
  /\ parse_x1_y2 (JSON.stringify x1_y2) = inr (array_of x1_y2)
  /\ Array.isArray (array_of x1_y2) = true
  /\ default parse_x1_y2 (str "DEPLOY") env_x1_y2 VNull = Return VUndefined.
Proof. repeat split; by vm_compute. Qed.

Lemma getInputPlugin_by_type_witness :
  Object.get {[ str "replace" := VObject {[ str "a" := VString (str "1") ]} ]}
    (str "replace")
  = VObject {[ str "a" := VString (str "1") ]}
  /\ (getInputPlugin (fun options => options)
        (Some {| cliFlags :=
                   Some {[ str "replace" :=
                             VObject {[ str "a" := VString (str "1") ]} ]} |})).2
     = Return (Some (VObject (<[str "preventAssignment" := VBoolean true]>
                                {[ str "a" := VString (str "1") ]})))
  /\ PluginLoaderCjs.getInputPlugin (fun options => options)
       (Some {| cliFlags :=
                  Some {[ str "replace" :=
                            VObject {[ str "a" := VString (str "1") ]} ]} |})
     = Return (Some (VObject {[ str "a" := VString (str "1") ]})).
Proof.
  assert (Object.get
            {[ str "replace" := VObject {[ str "a" := VString (str "1") ]} ]}
            (str "replace")
          = VObject {[ str "a" := VString (str "1") ]}) as H1
    by evaluate.
  split; [exact H1|]. split.
  - exact (proj1 (proj1 (getInputPlugin_by_type (fun options => options) _)
                    _ _ eq_refl H1)).
  - exact (proj1 (proj2 (proj2 (proj2 (proj2
             (getInputPlugin_by_type (fun options => options) _)))))
             _ _ eq_refl H1).
Defined.

(** C7 as stated fails on the code: flags that still hold the array of raw
    strings get a transform, built from the array, in both revisions; and
    the CommonJS revision hands a normalized [{a: "1"}] over with no
    [preventAssignment] in it. *)
Lemma getInputPlugin_array_counterexample :
  (typeof (array_of [str "a=1"]) = TObject
   /\ (getInputPlugin (fun options => options)
         (Some {| cliFlags := Some (flags_of [str "a=1"]) |})).2
      = Return (Some (VArray [str "a=1"]
                        {[ str "preventAssignment" := VBoolean true ]})))
  /\ PluginLoaderCjs.getInputPlugin (fun options => options)
       (Some {| cliFlags := Some (flags_of [str "a=1"]) |})
     = Return (Some (VArray [str "a=1"] ∅))
  /\ PluginLoaderCjs.getInputPlugin (fun options => options)
       (Some {| cliFlags :=
                  Some {[ str "replace" :=
                            VObject {[ str "a" := VString (str "1") ]} ]} |})
     = Return (Some (VObject {[ str "a" := VString (str "1") ]}))
  /\ ({[ str "a" := VString (str "1") ]} : gmap jsstring JsValue)
       !! str "preventAssignment" = None.
Proof. repeat split; by vm_compute. Qed.

Example getInputPlugin_no_flags :
  (getInputPlugin (fun options => options) (Some {| cliFlags := Some ∅ |})).2
  = Return None.
Proof. reflexivity. Qed.
End Worked.

(** ** More on the match *)

Section RegExpMore.
Import RegExp.

Lemma usable_equals_intro (pre : jsstring) a b (post : jsstring) :
  is_line_terminator a = false -> is_line_terminator b = false ->
  usable_equals (pre ++ a :: EQUALS :: b :: post) = true.
Proof.
  intros Ha Hb. induction pre as [|x pre IH].
  - simpl. by rewrite Ha, Hb.
  - change (usable_equals ((x :: pre) ++ a :: EQUALS :: b :: post))
      with (match pre ++ a :: EQUALS :: b :: post with
            | c :: b' :: _ =>
                (negb (is_line_terminator x) && (c =? EQUALS)
                 && negb (is_line_terminator b'))
                || usable_equals (pre ++ a :: EQUALS :: b :: post)
            | _ => false
            end).
    rewrite IH. destruct pre as [|y [|z pre]]; simpl; apply orb_true_r.
Qed.

Lemma usable_equals_elim (s : jsstring) :
  usable_equals s = true ->
  exists pre a b post,
    s = pre ++ a :: EQUALS :: b :: post
    /\ is_line_terminator a = false /\ is_line_terminator b = false.
Proof.
  induction s as [|x s IH]; [done|].
  destruct s as [|c [|z s]]; [done..|].
  change (usable_equals (x :: c :: z :: s))
    with ((negb (is_line_terminator x) && (c =? EQUALS)
           && negb (is_line_terminator z))
          || usable_equals (c :: z :: s)).
  intros [H|H]%orb_true_iff.
  - apply andb_true_iff in H as [H Hz]. apply andb_true_iff in H as [Hx Hc].
    apply N.eqb_eq in Hc as ->.
    exists [], x, z, s. by rewrite <- !negb_true_iff.
  - destruct (IH H) as (pre & a & b & post & Heq & Ha & Hb).
    exists (x :: pre), a, b, post. simpl. by rewrite Heq.
Qed.

Lemma match_here_at_usable a b (post : jsstring) :
  is_line_terminator a = false -> is_line_terminator b = false ->
  match_here (a :: EQUALS :: b :: post) <> None.
Proof.
  intros Ha Hb Hnone. unfold match_here in Hnone.
  pose proof (dot_plus_none_elim _ _ [] [a] (EQUALS :: b :: post) Hnone eq_refl)
    as Hk.
  assert (dot_plus [] (b :: post)
            (fun g2 _ => Some [[a] ++ EQUALS :: g2; [a]; g2]) = None) as Hin.
  { apply Hk; [done|]. simpl. by rewrite Ha. }
  pose proof (dot_plus_none_elim _ _ [] [b] post Hin eq_refl) as Hk2.
  discriminate Hk2; [done|]. simpl. by rewrite Hb.
Qed.

Lemma exec_found_later (pre s : jsstring) :
  exec s <> None -> exec (pre ++ s) <> None.
Proof.
  intros Hs. induction pre as [|c pre IH]; [done|]. simpl.
  by destruct (match_here (c :: pre ++ s)).
Qed.

(** X2. Whatever the entry, line terminators included, the pattern finds
    no match exactly when no [=] of the entry stands between two code
    units that are not line terminators. *)
Theorem exec_null_iff_no_usable_equals (s : jsstring) :
  exec s = None <-> usable_equals s = false.
Proof.
  split.
  - intros Hnone. destruct (usable_equals s) eqn:Hu; [exfalso|done].
    apply usable_equals_elim in Hu as (pre & a & b & post & -> & Ha & Hb).
    apply (exec_found_later pre (a :: EQUALS :: b :: post)); [|done].
    pose proof (match_here_at_usable a b post Ha Hb) as Hm.
    simpl. by destruct (match_here (a :: EQUALS :: b :: post)).
  - intros Hu. destruct (exec s) as [m|] eqn:He; [exfalso|done].
    apply exec_sound in He
      as (pre & g1 & g2 & post & -> & Hg1 & Hg2 & Hl1 & Hl2 & _).
    destruct g1 as [|a g1 _] using rev_ind; [done|].
    destruct g2 as [|b g2]; [done|].
    rewrite single_line_app in Hl1. apply andb_true_iff in Hl1 as [_ Ha].
    simpl in Ha, Hl2. rewrite andb_true_r in Ha.
    apply andb_true_iff in Hl2 as [Hb _].
    apply negb_true_iff in Ha, Hb.
    replace (pre ++ (g1 ++ [a]) ++ EQUALS :: (b :: g2) ++ post)
      with ((pre ++ g1) ++ a :: EQUALS :: b :: (g2 ++ post)) in Hu
      by (by rewrite <- !app_assoc).
    by rewrite usable_equals_intro in Hu.
Qed.
End RegExpMore.

(** ** More on the scan *)

Section ScanMore.
Import PluginLoader.

(** X1. What the callback does with an entry that has no line
    terminator: without an [=] that has text on both sides the entry is
    pushed on [badEntries]; otherwise the entry is [k=v], cut at the
    rightmost such [=], and it is pushed on [warnEntries] when [k] is
    found in the object and bound as [k: v] when it is not. *)
Theorem forEach_callback_single_line st (entry : jsstring) :
  single_line entry = true ->
  (text_around_equals entry = false
   /\ forEach_callback st entry
      = {| entries := entries st; badEntries := badEntries st ++ [entry];
           warnEntries := warnEntries st |})
  \/ (exists k v,
        entry = k ++ EQUALS :: v /\ k <> [] /\ v <> []
        /\ equals_only_last v = true
        /\ forEach_callback st entry
           = if Object.has_property (entries st) k
             then {| entries := entries st; badEntries := badEntries st;
                     warnEntries := warnEntries st ++ [entry] |}
             else {| entries := <[k := VString v]> (entries st);
                     badEntries := badEntries st;
                     warnEntries := warnEntries st |}).
Proof.
  intros Hl. destruct (exec_single_line entry Hl)
    as [[Hno He]|(k & v & Heq & Hk & Hv & Hlast & He)].
  - left. split; [done|]. unfold forEach_callback. by rewrite He.
  - right. exists k, v. repeat split; [done..|].
    unfold forEach_callback. by rewrite He.
Qed.

Lemma scan_keeps_inherited_unbound st entry :
  (forall k, k ∈ Object.prototype_keys -> entries st !! k = None) ->
  forall k, k ∈ Object.prototype_keys ->
            entries (forEach_callback st entry) !! k = None.
Proof.
  intros Hst k Hk. rewrite forEach_callback_key_value.
  destruct (key_value entry) as [[k' v]|]; [|by apply Hst].
  destruct (Object.has_property (entries st) k') eqn:Hin; [by apply Hst|].
  apply has_property_false in Hin as [_ Hk']. simpl.
  rewrite lookup_insert_ne; [by apply Hst|]. by intros ->.
Qed.

Lemma scan_counts_foldl elems :
  forall st,
    (size (entries (foldl forEach_callback st elems))
     + length (badEntries (foldl forEach_callback st elems))
     + length (warnEntries (foldl forEach_callback st elems))
     = size (entries st) + length (badEntries st) + length (warnEntries st)
       + length elems)%nat.
Proof.
  induction elems as [|e elems IH]; intros st; simpl; [lia|].
  rewrite IH, forEach_callback_key_value.
  destruct (key_value e) as [[k v]|]; simpl.
  - destruct (Object.has_property (entries st) k) eqn:Hin; simpl.
    + rewrite length_app. simpl. lia.
    + apply has_property_false in Hin as [Hnone _].
      rewrite map_size_insert_None by done. lia.
  - rewrite length_app. simpl. lia.
Qed.

(** X3. The loop accounts for every entry: an entry either adds one
    binding to the object or is pushed on one of the two lists, so the
    bindings and the two lists together count the entries. *)
Theorem scan_accounts_for_every_entry (elems : list jsstring) :
  (size (entries (scan elems)) + length (badEntries (scan elems))
   + length (warnEntries (scan elems)) = length elems)%nat.
Proof.
  unfold scan. rewrite scan_counts_foldl. unfold no_entries. simpl.
  rewrite map_size_empty. lia.
Qed.

Lemma warnEntries_foldl_sublist elems :
  forall st,
    exists more,
      warnEntries (foldl forEach_callback st elems) = warnEntries st ++ more
      /\ more `sublist_of` elems
      /\ Forall (fun e => is_Some (key_value e)) more.
Proof.
  induction elems as [|e elems IH]; intros st; simpl.
  - exists []. by rewrite app_nil_r.
  - destruct (IH (forEach_callback st e)) as (more & Heq & Hsub & Hall).
    rewrite Heq, forEach_callback_key_value.
    destruct (key_value e) as [[k v]|] eqn:He.
    + destruct (Object.has_property (entries st) k); simpl.
      * exists (e :: more). rewrite <- app_assoc. split; [done|].
        split; [by apply sublist_skip|]. apply Forall_cons. by rewrite He.
      * exists more. split; [done|]. split; [by apply sublist_cons|done].
    + exists more. split; [done|]. split; [by apply sublist_cons|done].
Qed.

(** X12. The two lists keep the order of the input and share no entry:
    [badEntries] is the input reduced to the entries that do not match,
    [warnEntries] is a subsequence of the input made of entries that do
    match. *)
Theorem reported_entries_in_order (elems : list jsstring) :
  badEntries (scan elems) = filter (fun e => key_value e = None) elems
  /\ badEntries (scan elems) `sublist_of` elems
  /\ warnEntries (scan elems) `sublist_of` elems
  /\ forall e, e ∈ warnEntries (scan elems) -> e ∉ badEntries (scan elems).
Proof.
  destruct (warnEntries_foldl_sublist elems no_entries)
    as (more & Heq & Hsub & Hall).
  fold (scan elems) in Heq. simpl in Heq. subst more.
  split; [apply badEntries_scan|]. split; [|split; [done|]].
  - rewrite badEntries_scan. apply sublist_filter.
  - intros e Hw Hb. rewrite badEntries_scan in Hb.
    apply list_elem_of_filter in Hb as [Hnone _].
    rewrite Forall_forall in Hall. specialize (Hall e Hw).
    rewrite Hnone in Hall. by destruct Hall.
Qed.

Lemma keys_of_cons_Some e elems k v :
  key_value e = Some (k, v) -> keys_of (e :: elems) = k :: keys_of elems.
Proof. intros He. unfold keys_of. simpl. by rewrite He. Qed.

Lemma keys_of_cons_None e elems :
  key_value e = None -> keys_of (e :: elems) = keys_of elems.
Proof. intros He. unfold keys_of. simpl. by rewrite He. Qed.

Lemma elem_of_keys_of elems k :
  k ∈ keys_of elems <-> exists e v, e ∈ elems /\ key_value e = Some (k, v).
Proof.
  unfold keys_of. rewrite list_elem_of_omap. split.
  - intros (e & Hin & He). destruct (key_value e) as [[k' v]|] eqn:Hkv; [|done].
    simpl in He. injection He as <-. by exists e, v.
  - intros (e & v & Hin & He). exists e. by rewrite He.
Qed.

Lemma warnEntries_foldl_length elems :
  forall st,
    (forall k, k ∈ Object.prototype_keys -> entries st !! k = None) ->
    (length (warnEntries (foldl forEach_callback st elems))
     = length (warnEntries st)
     <-> NoDup (keys_of elems)
         /\ Forall (fun k => entries st !! k = None
                              /\ k ∉ Object.prototype_keys) (keys_of elems)).
Proof.
  induction elems as [|e elems IH]; intros st Hst.
  - split; [intros _|done]. split; [apply NoDup_nil_2|apply Forall_nil_2].
  - change (foldl forEach_callback st (e :: elems))
      with (foldl forEach_callback (forEach_callback st e) elems).
    pose proof (scan_keeps_inherited_unbound st e Hst) as Hst'.
    specialize (IH (forEach_callback st e) Hst').
    destruct (warnEntries_foldl_sublist elems (forEach_callback st e))
      as (more & Heq & _ & _).
    revert IH Heq. rewrite forEach_callback_key_value.
    destruct (key_value e) as [[k v]|] eqn:He.
    + rewrite (keys_of_cons_Some _ _ _ _ He).
      destruct (Object.has_property (entries st) k) eqn:Hin; simpl.
      * intros _ Heq. rewrite Heq, !length_app. simpl. split; [lia|].
        intros [_ Hall]. apply Forall_cons in Hall as [[Hnone Hk] _].
        unfold Object.has_property in Hin. rewrite Hnone in Hin.
        rewrite (bool_decide_eq_false_2 _ Hk) in Hin.
        rewrite bool_decide_eq_false_2 in Hin; [done|]. by intros [? ?].
      * intros IH _. rewrite IH. apply has_property_false in Hin as [Hnone Hk].
        rewrite NoDup_cons, Forall_cons. split.
        -- intros [Hnd Hall]. split; [split; [|done]|split; [done|]].
           ++ intros Hkin. rewrite Forall_forall in Hall.
              destruct (Hall k Hkin) as [Hl _].
              by rewrite lookup_insert_eq in Hl.
           ++ eapply Forall_impl; [exact Hall|]. intros k' [Hl Hk'].
              split; [|done]. destruct (decide (k = k')) as [->|Hne].
              ** by rewrite lookup_insert_eq in Hl.
              ** by rewrite lookup_insert_ne in Hl.
        -- intros [[Hkin Hnd] [_ Hall]]. split; [done|].
           rewrite Forall_forall in Hall |- *. intros k' Hk'.
           destruct (Hall k' Hk') as [Hl Hp]. split; [|done].
           rewrite lookup_insert_ne; [done|]. by intros ->.
    + rewrite (keys_of_cons_None _ _ He). simpl. by intros IH _.
Qed.

Lemma warnEntries_scan_nil elems :
  warnEntries (scan elems) = []
  <-> NoDup (keys_of elems)
      /\ Forall (fun k => k ∉ Object.prototype_keys) (keys_of elems).
Proof.
  unfold scan. rewrite <- length_zero_iff_nil.
  change 0%nat with (length (warnEntries no_entries)).
  rewrite warnEntries_foldl_length by (intros; apply lookup_empty).
  split; intros [Hnd Hall]; (split; [done|]);
    (eapply Forall_impl; [exact Hall|]); simpl.
  - by intros k [_ ?].
  - intros k Hk. split; [apply lookup_empty|done].
Qed.

Lemma badEntries_scan_nil elems :
  badEntries (scan elems) = []
  <-> Forall (fun e => is_Some (key_value e)) elems.
Proof.
  rewrite badEntries_scan. induction elems as [|e elems IH].
  - split; [intros _; apply Forall_nil_2|done].
  - rewrite filter_cons, Forall_cons. destruct (key_value e) as [[k v]|].
    + rewrite decide_False by done. rewrite IH. split; [|by intros [_ ?]].
      intros H. split; [by eexists|done].
    + rewrite decide_True by done. split; [done|]. by intros [[? ?] _].
Qed.
End ScanMore.

(** ** More on [verify] *)

Section VerifyMore.
Import PluginLoader.

Lemma verify_returns_exactly flags elems own :
  Object.get flags (str "replace") = VArray elems own ->
  ((verify flags).2 = Return tt
   <-> Forall (fun e => is_Some (key_value e)) elems
       /\ NoDup (keys_of elems)
       /\ Forall (fun k => k ∉ Object.prototype_keys) (keys_of elems)).
Proof.
  intros Hget. rewrite <- badEntries_scan_nil, <- warnEntries_scan_nil.
  rewrite (verify_array _ _ _ Hget). simpl. case_bool_decide as Hmsg.
  - split; [done|]. intros [Hb Hw]. by rewrite Hb, Hw in Hmsg.
  - split; [intros _|done]. apply errorMessage_preface.
    by destruct (decide (errorMessage (badEntries (scan elems))
                           (warnEntries (scan elems)) = preface)).
Qed.

(** X4. For an array-valued flag, [verify] returns without an error
    exactly when every entry matches the pattern, no two entries have the
    same left-hand key, and no key names a property inherited from
    [Object.prototype]. *)
Theorem verify_returns_iff flags elems own :
  Object.get flags (str "replace") = VArray elems own ->
  ((verify flags).2 = Return tt
   <-> Forall (fun e => is_Some (key_value e)) elems
       /\ NoDup (keys_of elems)
       /\ Forall (fun k => k ∉ Object.prototype_keys) (keys_of elems)).
Proof. apply verify_returns_exactly. Qed.

Lemma first_wins_lookup_NoDup elems e k v :
  NoDup (keys_of elems) -> e ∈ elems -> key_value e = Some (k, v) ->
  k ∉ Object.prototype_keys ->
  first_wins elems !! k = Some (VString v).
Proof.
  intros Hnd Hin He Hk. induction elems as [|e0 elems IH];
    [by apply elem_of_nil in Hin|].
  simpl. destruct (key_value e0) as [[k0 v0]|] eqn:He0.
  - rewrite (keys_of_cons_Some _ _ _ _ He0) in Hnd.
    apply NoDup_cons in Hnd as [Hk0 Hnd].
    apply elem_of_cons in Hin as [->|Hin].
    + rewrite He in He0. injection He0 as <- <-.
      rewrite bool_decide_eq_false_2 by done. apply lookup_insert_eq.
    + assert (k0 <> k) as Hne.
      { intros ->. apply Hk0, elem_of_keys_of. by exists e, v. }
      case_bool_decide; [by apply IH|].
      rewrite lookup_insert_ne by done. by apply IH.
  - rewrite (keys_of_cons_None _ _ He0) in Hnd.
    apply elem_of_cons in Hin as [->|Hin]; [congruence|by apply IH].
Qed.

(** X5. When [verify] returns without an error, no entry was lost: each
    entry of the array matches, and the object built binds its key to its
    value; the flags stored do too, unless the key is [delimiters], which
    holds the marker. *)
Theorem verify_success_binds_every_entry flags elems own entry :
  Object.get flags (str "replace") = VArray elems own ->
  (verify flags).2 = Return tt ->
  entry ∈ elems ->
  exists k v,
    key_value entry = Some (k, v)
    /\ entries (scan elems) !! k = Some (VString v)
    /\ exists m, stored flags = VObject m
         /\ (k <> str "delimiters" -> m !! k = Some (VString v)).
Proof.
  intros Hget Hret Hin.
  apply (verify_returns_exactly _ _ _ Hget) in Hret as (Hall & Hnd & Hpro).
  rewrite Forall_forall in Hall. destruct (Hall _ Hin) as [[k v] He].
  assert (k ∉ Object.prototype_keys) as Hk.
  { rewrite Forall_forall in Hpro. apply Hpro, elem_of_keys_of. by exists entry, v. }
  pose proof (first_wins_lookup_NoDup _ _ _ _ Hnd Hin He Hk) as Hl.
  exists k, v. split; [done|]. split; [by rewrite entries_scan|].
  eexists. split; [by apply (stored_array _ elems own)|].
  intros Hd. by rewrite lookup_insert_ne.
Qed.

Lemma first_wins_comes_from_entry elems k x :
  first_wins elems !! k = Some x ->
  exists pre entry post v,
    elems = pre ++ entry :: post
    /\ key_value entry = Some (k, v) /\ x = VString v
    /\ Forall (fun e => fst <$> key_value e <> Some k) pre.
Proof.
  induction elems as [|e elems IH]; simpl; [by rewrite lookup_empty|].
  intros Hl.
  assert (k ∉ Object.prototype_keys) as Hk.
  { intros Hk. pose proof (first_wins_inherited (e :: elems) k Hk) as Hn.
    simpl in Hn. by rewrite Hn in Hl. }
  destruct (key_value e) as [[k0 v0]|] eqn:He.
  - destruct (decide (k0 = k)) as [->|Hne].
    + rewrite bool_decide_eq_false_2, lookup_insert_eq in Hl by done.
      injection Hl as <-. by exists [], e, elems, v0.
    + assert (first_wins elems !! k = Some x) as Hl'.
      { revert Hl. case_bool_decide; [done|]. by rewrite lookup_insert_ne. }
      destruct (IH Hl') as (pre & entry & post & v & -> & Hkv & -> & Hpre).
      exists (e :: pre), entry, post, v. repeat split; [done|].
      apply Forall_cons. split; [|done]. rewrite He. simpl. congruence.
  - destruct (IH Hl) as (pre & entry & post & v & -> & Hkv & -> & Hpre).
    exists (e :: pre), entry, post, v. repeat split; [done|].
    apply Forall_cons. split; [|done]. by rewrite He.
Qed.

(** X11. Whatever the outcome of [verify] on an array, each binding of
    the object stored, the [delimiters] marker apart, comes from the
    first entry that has its key: the value is the right-hand text of
    that entry, and key and value are non-empty, hold no line terminator
    and stand around an [=] inside the entry; the key is no property
    inherited from [Object.prototype]. *)
Theorem stored_bindings_come_from_entries flags elems own m k x :
  Object.get flags (str "replace") = VArray elems own ->
  stored flags = VObject m ->
  k <> str "delimiters" ->
  m !! k = Some x ->
  exists pre entry post v,
    elems = pre ++ entry :: post
    /\ key_value entry = Some (k, v) /\ x = VString v
    /\ Forall (fun e => fst <$> key_value e <> Some k) pre
    /\ k <> [] /\ v <> []
    /\ single_line k = true /\ single_line v = true
    /\ includes entry (k ++ EQUALS :: v) = true
    /\ k ∉ Object.prototype_keys.
Proof.
  intros Hget Hst Hd Hl.
  rewrite (stored_array _ _ _ Hget) in Hst. injection Hst as <-.
  rewrite lookup_insert_ne in Hl by done.
  assert (k ∉ Object.prototype_keys) as Hk.
  { intros Hk. by rewrite (first_wins_inherited elems k Hk) in Hl. }
  destruct (first_wins_comes_from_entry _ _ _ Hl)
    as (pre & entry & post & v & -> & Hkv & -> & Hpre).
  pose proof Hkv as Hkv'.
  apply key_value_exec in Hkv' as (m0 & more & He).
  apply exec_sound in He
    as (a & g1 & g2 & b & Hentry & Hg1 & Hg2 & Hl1 & Hl2 & Heq).
  injection Heq as _ Hk1 Hk2 _. subst g1 g2.
  exists pre, entry, post, v. repeat split; try done.
  rewrite Hentry.
  replace (a ++ k ++ EQUALS :: v ++ b) with (a ++ (k ++ EQUALS :: v) ++ b)
    by (by rewrite <- !app_assoc).
  apply includes_intro.
Qed.

Lemma first_wins_Permutation elems elems' :
  elems ≡ₚ elems' ->
  NoDup (keys_of elems) ->
  first_wins elems = first_wins elems'.
Proof.
  intros Hperm Hnd.
  assert (NoDup (keys_of elems')) as Hnd'.
  { unfold keys_of in *. by rewrite <- Hperm. }
  assert (forall l l' : list jsstring, l ≡ₚ l' -> NoDup (keys_of l) ->
            forall k x, first_wins l !! k = Some x ->
                        first_wins l' !! k = Some x) as Hone.
  { intros l l' Hp Hn k x Hl.
    assert (k ∉ Object.prototype_keys) as Hk.
    { intros Hk. by rewrite (first_wins_inherited l k Hk) in Hl. }
    destruct (first_wins_comes_from_entry _ _ _ Hl)
      as (pre & entry & post & v & -> & Hkv & -> & _).
    apply (first_wins_lookup_NoDup l' entry); [|by rewrite <- Hp; set_solver|done..].
    unfold keys_of in *. by rewrite <- Hp. }
  apply map_eq. intros k. apply option_eq. intros x. split.
  - by apply Hone.
  - by apply Hone.
Qed.

(** X6. Where [verify] accepts an array, the order of the entries does
    not matter: it accepts every rearrangement of the array and stores
    the same object for it. *)
Theorem verify_order_irrelevant flags flags' elems elems' own own' :
  Object.get flags (str "replace") = VArray elems own ->
  Object.get flags' (str "replace") = VArray elems' own' ->
  elems ≡ₚ elems' ->
  (verify flags).2 = Return tt ->
  (verify flags').2 = Return tt /\ stored flags' = stored flags.
Proof.
  intros Hget Hget' Hperm Hret.
  apply (verify_returns_exactly _ _ _ Hget) in Hret as (Hall & Hnd & Hpro).
  split.
  - apply (verify_returns_exactly _ _ _ Hget'). unfold keys_of in *.
    by rewrite <- Hperm.
  - rewrite (stored_array _ _ _ Hget), (stored_array _ _ _ Hget').
    by rewrite (first_wins_Permutation _ _ Hperm Hnd).
Qed.

(** X7. A second [verify] does nothing: what the first call leaves in
    [flags.replace] is never an array, so the second call leaves the flags
    as they are and returns without an error, also when the first call
    threw. *)
Theorem verify_twice (flags : gmap jsstring JsValue) :
  Array.isArray (stored flags) = false
  /\ verify (verify flags).1 = ((verify flags).1, Return tt).
Proof.
  assert (Array.isArray (stored flags) = false) as Hno.
  { destruct (Object.get flags (str "replace")) as [| | | | |elems own|o] eqn:Hget.
    6: by rewrite (stored_array _ _ _ Hget).
    all: unfold stored; rewrite verify_not_array by (by rewrite Hget);
      simpl; by rewrite Hget. }
  split; [done|]. by apply verify_not_array.
Qed.

(** X8. [verify] writes to [flags.replace] and to nothing else: every
    other flag is after the call what it was before. *)
Theorem verify_keeps_other_flags (flags : gmap jsstring JsValue) k :
  k <> str "replace" -> (verify flags).1 !! k = flags !! k.
Proof.
  intros Hk.
  destruct (Object.get flags (str "replace")) as [| | | | |elems own|o] eqn:Hget.
  6: { rewrite (verify_array _ _ _ Hget). simpl. by rewrite lookup_insert_ne. }
  all: by rewrite verify_not_array by (by rewrite Hget).
Qed.

(** X9. [verify] throws nothing but a NonFatalError, and only for an
    array-valued flag with an entry on one of the two lists; the message
    starts with the preface and goes on with a section. *)
Theorem verify_error_shape (flags : gmap jsstring JsValue) e :
  (verify flags).2 = Throw e ->
  exists elems own message,
    Object.get flags (str "replace") = VArray elems own
    /\ e = NonFatalError message
    /\ (badEntries (scan elems) <> [] \/ warnEntries (scan elems) <> [])
    /\ starts_with message preface = true
    /\ message <> preface.
Proof.
  destruct (Object.get flags (str "replace")) as [| | | | |elems own|o] eqn:Hget.
  6: { destruct (decide (badEntries (scan elems) = []
                        /\ warnEntries (scan elems) = [])) as [[Hb Hw]|Hsome].
       { by rewrite (verify_returns _ _ _ Hget Hb Hw). }
       assert (badEntries (scan elems) <> []
               \/ warnEntries (scan elems) <> []) as Hor.
       { destruct (badEntries (scan elems)); [|by left].
         destruct (warnEntries (scan elems)); [|by right]. by destruct Hsome. }
       rewrite (verify_throws _ _ _ Hget Hor). intros [= <-].
       exists elems, own. eexists. split; [done|]. split; [done|].
       split; [done|]. split; [|by rewrite errorMessage_preface].
       destruct (badEntries (scan elems)) as [|b bad];
         destruct (warnEntries (scan elems)) as [|w warn].
       - by destruct Hsome.
       - rewrite errorMessage_duplicate by done. apply starts_with_app.
       - rewrite errorMessage_malformed by done. apply starts_with_app.
       - rewrite errorMessage_both by done. apply starts_with_app. }
  all: by rewrite verify_not_array by (by rewrite Hget).
Qed.
End VerifyMore.

(** ** The lines of the message *)

Section MessageMore.
Import PluginLoader.

Lemma hex_digit_printable d : 32 <= JSON.hex_digit d.
Proof. unfold JSON.hex_digit. destruct (d <? 10); lia. Qed.

Lemma unicode_escape_printable c :
  Forall (fun u => 32 <= u) (JSON.unicode_escape c).
Proof.
  unfold JSON.unicode_escape.
  repeat (apply Forall_cons; split; [first [apply hex_digit_printable|lia]|]).
  apply Forall_nil_2.
Qed.

Lemma short_escape_printable c e : JSON.short_escape c = Some e -> 32 <= e.
Proof.
  unfold JSON.short_escape.
  repeat (match goal with |- context [if ?b then _ else _] => destruct b end);
    intros [= <-]; lia.
Qed.

Lemma quote_units_printable n :
  forall s : jsstring,
    (length s <= n)%nat -> Forall (fun u => 32 <= u) (JSON.quote_units s).
Proof.
  induction n as [|n IH]; intros [|c s] Hlen; simpl in Hlen;
    try apply Forall_nil_2; [lia|].
  assert (Forall (fun u => 32 <= u) (JSON.quote_units s)) as Hs
    by (apply IH; lia).
  pose proof (unicode_escape_printable c) as Hu.
  change (JSON.quote_units (c :: s))
    with (match JSON.short_escape c with
          | Some e => 92 :: e :: JSON.quote_units s
          | None =>
              if c <? 32 then JSON.unicode_escape c ++ JSON.quote_units s
              else if JSON.is_leading_surrogate c then
                match s with
                | d :: s'' =>
                    if JSON.is_trailing_surrogate d
                    then c :: d :: JSON.quote_units s''
                    else JSON.unicode_escape c ++ JSON.quote_units s
                | [] => JSON.unicode_escape c
                end
              else if JSON.is_trailing_surrogate c
                   then JSON.unicode_escape c ++ JSON.quote_units s
              else c :: JSON.quote_units s
          end).
  destruct (JSON.short_escape c) as [e|] eqn:He.
  { apply Forall_cons. split; [lia|]. apply Forall_cons. split; [|done].
    by apply (short_escape_printable c). }
  destruct (c <? 32) eqn:Hc; [by apply Forall_app|].
  apply N.ltb_ge in Hc.
  destruct (JSON.is_leading_surrogate c).
  - destruct s as [|d s]; [done|].
    destruct (JSON.is_trailing_surrogate d) eqn:Hd; [|by apply Forall_app].
    unfold JSON.is_trailing_surrogate in Hd.
    apply andb_true_iff in Hd as [Hd _]. apply N.leb_le in Hd.
    apply Forall_cons. split; [done|]. apply Forall_cons. split; [lia|].
    apply IH. simpl in Hlen. lia.
  - destruct (JSON.is_trailing_surrogate c); [by apply Forall_app|].
    by apply Forall_cons.
Qed.

Lemma stringify_printable (a : list jsstring) :
  Forall (fun u => 32 <= u) (JSON.stringify a).
Proof.
  assert (forall s : jsstring, Forall (fun u => 32 <= u) (JSON.quote s)) as Hq.
  { intros s. unfold JSON.quote. apply Forall_cons. split; [lia|].
    apply Forall_app. split; [by apply (quote_units_printable (length s))|].
    apply Forall_cons. split; [lia|apply Forall_nil_2]. }
  unfold JSON.stringify. apply Forall_app. split.
  { apply Forall_cons. split; [vm_compute; discriminate|apply Forall_nil_2]. }
  apply Forall_app. split.
  - induction a as [|s a IH]; [apply Forall_nil_2|].
    destruct a as [|t a]; [apply Hq|].
    change (JSON.join (str ",") (map JSON.quote (s :: t :: a)))
      with (JSON.quote s ++ str ","
            ++ JSON.join (str ",") (map JSON.quote (t :: a))).
    apply Forall_app. split; [apply Hq|]. apply Forall_app. split; [|done].
    apply Forall_cons. split; [vm_compute; discriminate|apply Forall_nil_2].
  - apply Forall_cons. split; [vm_compute; discriminate|apply Forall_nil_2].
Qed.

Lemma line_feeds_app (a b : jsstring) :
  line_feeds (a ++ b) = (line_feeds a + line_feeds b)%nat.
Proof. apply count_occ_app. Qed.

Lemma line_feeds_printable (s : jsstring) :
  Forall (fun u => 32 <= u) s -> line_feeds s = 0%nat.
Proof.
  unfold line_feeds. induction 1 as [|c s Hc _ IH]; [done|]. simpl.
  destruct (N.eq_dec c 10) as [->|_]; [lia|done].
Qed.

Lemma line_feeds_malformed_section bad :
  line_feeds (malformed_section bad) = 0%nat.
Proof.
  unfold malformed_section.
  by rewrite !line_feeds_app, (line_feeds_printable _ (stringify_printable bad)).
Qed.

Lemma line_feeds_duplicate_section warn :
  line_feeds (duplicate_section warn) = 0%nat.
Proof.
  unfold duplicate_section.
  by rewrite !line_feeds_app, (line_feeds_printable _ (stringify_printable warn)).
Qed.

(** X10. The entries cannot break the lines of the message: whatever
    they hold (line feeds, quotes, control characters), the message has
    one line feed, at the end of the preface, and a second one exactly
    when both sections are there; the serialized lists hold no code unit
    below the space. *)
Theorem errorMessage_line_feeds (bad warn : list jsstring) :
  line_feeds (errorMessage bad warn)
  = match bad, warn with
    | _ :: _, _ :: _ => 2%nat
    | _, _ => 1%nat
    end
  /\ Forall (fun u => 32 <= u) (JSON.stringify bad)
  /\ Forall (fun u => 32 <= u) (JSON.stringify warn).
Proof.
  split; [|split; apply stringify_printable].
  destruct bad as [|b bad], warn as [|w warn].
  - reflexivity.
  - rewrite errorMessage_duplicate by done.
    by rewrite line_feeds_app, line_feeds_duplicate_section.
  - rewrite errorMessage_malformed by done.
    by rewrite line_feeds_app, line_feeds_malformed_section.
  - rewrite errorMessage_both by done.
    by rewrite !line_feeds_app, line_feeds_malformed_section,
         line_feeds_duplicate_section.
Qed.
End MessageMore.

(** ** More on [default] and [getInputPlugin] *)

Section DefaultMore.
Import PluginLoader.
Variable JSON_parse : jsstring -> jsstring + JsValue.
Variable cli_env_prefix : jsstring.
Variable process_env : gmap jsstring jsstring.

(** X13. Whatever [JSON.parse] does and whatever the environment holds,
    the resolver hands over [undefined] or an array and nothing else; and
    it throws nothing but a NonFatalError, whose message names the
    variable, and only on a context that is not [null] with the variable
    set. *)
Theorem default_outcomes (context : JsValue) :
  match default JSON_parse cli_env_prefix process_env context with
  | Return result => result = VUndefined \/ Array.isArray result = true
  | Throw e =>
      exists text message,
        context <> VNull
        /\ process_env !! (cli_env_prefix ++ str "_REPLACE") = Some text
        /\ e = NonFatalError message
        /\ includes message (cli_env_prefix ++ str "_REPLACE") = true
  end.
Proof.
  assert (context = VNull \/ context <> VNull) as [->|Hctx]
    by (destruct context; (by left) || (by right)).
  { rewrite default_null_context. by left. }
  assert (default JSON_parse cli_env_prefix process_env context
          = default JSON_parse cli_env_prefix process_env VUndefined) as ->
    by (by destruct context).
  unfold default.
  destruct (process_env !! (cli_env_prefix ++ str "_REPLACE")) as [text|];
    [|by left].
  destruct (JSON_parse text) as [message|result].
  - eexists text, _. repeat split; [done|]. apply includes_intro.
  - destruct (Array.isArray result) eqn:Harr; cbn [negb]; [by right|].
    eexists text, _. repeat split; [done|]. apply includes_intro.
Qed.
End DefaultMore.

Section FactoryMore.
Import PluginLoader.
Context {Plugin : Type} (replace : JsValue -> Plugin).

(** X14. The factory can be called again: on the bundle data it left
    behind it returns what it returned and leaves the data as they are;
    [Object.assign] finds [preventAssignment] already set. *)
Theorem getInputPlugin_twice (bundleData : option BundleData) :
  getInputPlugin replace (Some (getInputPlugin replace bundleData).1)
  = getInputPlugin replace bundleData.
Proof.
  destruct bundleData as [[[flags|]]|]; try reflexivity.
  unfold getInputPlugin. simpl.
  destruct (Object.get flags (str "replace")) as [| | | | |elems own|o] eqn:Hget;
    simpl; rewrite ?Hget; simpl; try reflexivity.
  - unfold Object.get. rewrite lookup_insert_eq. simpl.
    by rewrite !insert_insert_eq.
  - unfold Object.get. rewrite lookup_insert_eq. simpl.
    by rewrite !insert_insert_eq.
Qed.

(** X15. From the raw flags to the transform: after [verify] has run on
    an array of entries, whether it returned or threw, the factory builds
    the transform from an object that holds [preventAssignment: true],
    the [delimiters] marker and, under every other key, what the
    ReplacementMap of the entries holds. *)
Theorem verify_then_getInputPlugin flags elems own :
  Object.get flags (str "replace") = VArray elems own ->
  exists options,
    (getInputPlugin replace (Some {| cliFlags := Some (verify flags).1 |})).2
    = Return (Some (replace (VObject options)))
    /\ options !! str "preventAssignment" = Some (VBoolean true)
    /\ options !! str "delimiters" = Some delimiters
    /\ forall k, k <> str "preventAssignment" -> k <> str "delimiters" ->
                 options !! k = first_wins elems !! k.
Proof.
  intros Hget.
  pose proof (stored_array _ _ _ Hget) as Hst. unfold stored in Hst.
  eexists. split; [|split; [|split]].
  - unfold getInputPlugin. simpl. by rewrite Hst.
  - apply lookup_insert_eq.
  - rewrite lookup_insert_ne by (intros H; vm_compute in H; discriminate H).
    apply lookup_insert_eq.
  - intros k Hk Hd. by rewrite !lookup_insert_ne.
Qed.
End FactoryMore.

(** ** The first revision *)

Section FirstRevision.
Import PluginLoader.

(** X16. The first revision of [verify] decides as the current one does:
    on an array it stores the ReplacementMap of the entries, without the
    [delimiters] marker, so that a binding under the key [delimiters] is
    kept; it returns exactly when the current revision returns, and
    throws an [Error] marked as not fatal with the message of the current
    revision's NonFatalError. *)
Theorem verify_first_revision flags elems own :
  Object.get flags (str "replace") = VArray elems own ->
  (PluginHandler001.verify flags).1
  = <[str "replace" := VObject (first_wins elems)]> flags
  /\ ((PluginHandler001.verify flags).2 = PluginHandler001.Returned tt
      <-> (verify flags).2 = Return tt)
  /\ forall message,
       (PluginHandler001.verify flags).2
       = PluginHandler001.Thrown (PluginHandler001.Error message false)
       <-> (verify flags).2 = Throw (NonFatalError message).
Proof.
  intros Hget. unfold PluginHandler001.verify.
  rewrite (verify_array _ _ _ Hget), Hget. cbn [fst snd].
  rewrite entries_scan. case_bool_decide.
  - split; [done|]. split; [done|]. intros message. split; by intros [= ->].
  - split; [done|]. split; [done|]. by intros message.
Qed.

(** X17. The first revision of the resolver is the CommonJS one with the
    prefix [DEPLOY]: the same value returned, and an [Error] marked as
    not fatal where the later revision throws a NonFatalError, with the
    same message. *)
Theorem default_first_revision
    (JSON_parse : jsstring -> jsstring + JsValue)
    (process_env : gmap jsstring jsstring) :
  match PluginLoaderCjs.default JSON_parse (str "DEPLOY") process_env with
  | Return result =>
      PluginHandler001.default JSON_parse process_env
      = PluginHandler001.Returned result
  | Throw e =>
      exists message,
        e = NonFatalError message
        /\ PluginHandler001.default JSON_parse process_env
           = PluginHandler001.Thrown (PluginHandler001.Error message false)
  end.
Proof.
  unfold PluginLoaderCjs.default, PluginHandler001.default.
  change (str "DEPLOY" ++ str "_REPLACE") with (str "DEPLOY_REPLACE").
  destruct (process_env !! str "DEPLOY_REPLACE") as [text|]; [|done].
  destruct (JSON_parse text) as [message|result].
  - by eexists.
  - destruct (Array.isArray result); simpl; [done|]. by eexists.
Qed.
End FirstRevision.

(** ** More worked inputs *)

Section WorkedMore.
Import PluginLoader.

Lemma forEach_callback_single_line_witness :
  single_line (str "a=b=c") = true
  /\ ((text_around_equals (str "a=b=c") = false
       /\ forEach_callback no_entries (str "a=b=c")
          = {| entries := entries no_entries;
               badEntries := badEntries no_entries ++ [str "a=b=c"];
               warnEntries := warnEntries no_entries |})
      \/ (exists k v,
            str "a=b=c" = k ++ EQUALS :: v /\ k <> [] /\ v <> []
            /\ equals_only_last v = true
            /\ forEach_callback no_entries (str "a=b=c")
               = if Object.has_property (entries no_entries) k
                 then {| entries := entries no_entries;
                         badEntries := badEntries no_entries;
                         warnEntries := warnEntries no_entries
                                        ++ [str "a=b=c"] |}
                 else {| entries := <[k := VString v]> (entries no_entries);
                         badEntries := badEntries no_entries;
                         warnEntries := warnEntries no_entries |})).
Proof.
  assert (single_line (str "a=b=c") = true) as H1 by evaluate.
  split; [exact H1|].
  exact (forEach_callback_single_line no_entries (str "a=b=c") H1).
Defined.

Lemma verify_returns_iff_witness :
  Object.get (flags_of x1_y2) (str "replace") = VArray x1_y2 ∅
  /\ ((verify (flags_of x1_y2)).2 = Return tt
      <-> Forall (fun e => is_Some (key_value e)) x1_y2
          /\ NoDup (keys_of x1_y2)
          /\ Forall (fun k => k ∉ Object.prototype_keys) (keys_of x1_y2)).
Proof.
  assert (Object.get (flags_of x1_y2) (str "replace") = VArray x1_y2 ∅) as H1
    by evaluate.
  split; [exact H1|]. exact (verify_returns_iff _ _ _ H1).
Defined.

Lemma verify_success_binds_every_entry_witness :
  Object.get (flags_of x1_y2) (str "replace") = VArray x1_y2 ∅
  /\ (verify (flags_of x1_y2)).2 = Return tt
  /\ str "y=2" ∈ x1_y2
  /\ exists k v,
       key_value (str "y=2") = Some (k, v)
       /\ entries (scan x1_y2) !! k = Some (VString v)
       /\ exists m, stored (flags_of x1_y2) = VObject m
            /\ (k <> str "delimiters" -> m !! k = Some (VString v)).
Proof.
  assert (Object.get (flags_of x1_y2) (str "replace") = VArray x1_y2 ∅) as H1
    by evaluate.
  assert ((verify (flags_of x1_y2)).2 = Return tt) as H2 by evaluate.
  assert (str "y=2" ∈ x1_y2) as H3 by (right; left).
  split; [exact H1|]. split; [exact H2|]. split; [exact H3|].
  exact (verify_success_binds_every_entry _ _ _ _ H1 H2 H3).
Defined.

Lemma stored_bindings_come_from_entries_witness :
  Object.get (flags_of [str "a=1"; str "a=2"]) (str "replace")
  = VArray [str "a=1"; str "a=2"] ∅
  /\ stored (flags_of [str "a=1"; str "a=2"])
     = VObject (<[str "delimiters" := delimiters]>
                  {[ str "a" := VString (str "1") ]})
  /\ exists pre entry post v,
       [str "a=1"; str "a=2"] = pre ++ entry :: post
       /\ key_value entry = Some (str "a", v)
       /\ VString (str "1") = VString v
       /\ Forall (fun e => fst <$> key_value e <> Some (str "a")) pre
       /\ str "a" <> [] /\ v <> []
       /\ single_line (str "a") = true /\ single_line v = true
       /\ includes entry (str "a" ++ EQUALS :: v) = true
       /\ str "a" ∉ Object.prototype_keys.
Proof.
  assert (Object.get (flags_of [str "a=1"; str "a=2"]) (str "replace")
          = VArray [str "a=1"; str "a=2"] ∅) as H1 by evaluate.
  assert (stored (flags_of [str "a=1"; str "a=2"])
          = VObject (<[str "delimiters" := delimiters]>
                       {[ str "a" := VString (str "1") ]})) as H2 by evaluate.
  assert (str "a" <> str "delimiters") as H3
    by (intros H; vm_compute in H; discriminate H).
  assert ((<[str "delimiters" := delimiters]>
             {[ str "a" := VString (str "1") ]} : gmap jsstring JsValue)
            !! str "a" = Some (VString (str "1"))) as H4 by evaluate.
  split; [exact H1|]. split; [exact H2|].
  exact (stored_bindings_come_from_entries _ _ _ _ _ _ H1 H2 H3 H4).
Defined.

Lemma verify_order_irrelevant_witness :
  Object.get (flags_of [str "x=1"; str "y=2"]) (str "replace")
  = VArray [str "x=1"; str "y=2"] ∅
  /\ Object.get (flags_of [str "y=2"; str "x=1"]) (str "replace")
     = VArray [str "y=2"; str "x=1"] ∅
  /\ [str "x=1"; str "y=2"] ≡ₚ [str "y=2"; str "x=1"]
  /\ (verify (flags_of [str "x=1"; str "y=2"])).2 = Return tt
  /\ (verify (flags_of [str "y=2"; str "x=1"])).2 = Return tt
  /\ stored (flags_of [str "y=2"; str "x=1"])
     = stored (flags_of [str "x=1"; str "y=2"]).
Proof.
  assert (Object.get (flags_of [str "x=1"; str "y=2"]) (str "replace")
          = VArray [str "x=1"; str "y=2"] ∅) as H1 by evaluate.
  assert (Object.get (flags_of [str "y=2"; str "x=1"]) (str "replace")
          = VArray [str "y=2"; str "x=1"] ∅) as H2 by evaluate.
  assert ([str "x=1"; str "y=2"] ≡ₚ [str "y=2"; str "x=1"]) as H3
    by apply perm_swap.
  assert ((verify (flags_of [str "x=1"; str "y=2"])).2 = Return tt) as H4
    by evaluate.
  split; [exact H1|]. split; [exact H2|]. split; [exact H3|].
  split; [exact H4|].
  exact (verify_order_irrelevant _ _ _ _ _ _ H1 H2 H3 H4).
Defined.

Lemma verify_keeps_other_flags_witness :
  str "watch" <> str "replace"
  /\ (verify (<[str "watch" := VBoolean true]> (flags_of [str "abc"])))
       .1 !! str "watch"
     = <[str "watch" := VBoolean true]> (flags_of [str "abc"]) !! str "watch".
Proof.
  assert (str "watch" <> str "replace") as H1
    by (intros H; vm_compute in H; discriminate H).
  split; [exact H1|]. exact (verify_keeps_other_flags _ _ H1).
Defined.

Lemma verify_error_shape_witness :
  (verify (flags_of [str "abc"])).2
  = Throw (NonFatalError (preface ++ malformed_section [str "abc"]))
  /\ exists elems own message,
       Object.get (flags_of [str "abc"]) (str "replace") = VArray elems own
       /\ NonFatalError (preface ++ malformed_section [str "abc"])
          = NonFatalError message
       /\ (badEntries (scan elems) <> [] \/ warnEntries (scan elems) <> [])
       /\ starts_with message preface = true
       /\ message <> preface.
Proof.
  assert ((verify (flags_of [str "abc"])).2
          = Throw (NonFatalError (preface ++ malformed_section [str "abc"])))
    as H1 by evaluate.
  split; [exact H1|]. exact (verify_error_shape _ _ H1).
Defined.

Lemma verify_then_getInputPlugin_witness :
  Object.get (flags_of [str "a=1"; str "bad"]) (str "replace")
  = VArray [str "a=1"; str "bad"] ∅
  /\ exists options,
       (getInputPlugin (fun o => o)
          (Some {| cliFlags :=
                     Some (verify (flags_of [str "a=1"; str "bad"])).1 |})).2
       = Return (Some (VObject options))
       /\ options !! str "preventAssignment" = Some (VBoolean true)
       /\ options !! str "delimiters" = Some delimiters
       /\ forall k, k <> str "preventAssignment" -> k <> str "delimiters" ->
                    options !! k = first_wins [str "a=1"; str "bad"] !! k.
Proof.
  assert (Object.get (flags_of [str "a=1"; str "bad"]) (str "replace")
          = VArray [str "a=1"; str "bad"] ∅) as H1 by evaluate.
  split; [exact H1|].
  exact (verify_then_getInputPlugin (fun o => o) _ _ _ H1).
Defined.

Lemma verify_first_revision_witness :
  Object.get (flags_of [str "delimiters=x"; str "bad"]) (str "replace")
  = VArray [str "delimiters=x"; str "bad"] ∅
  /\ (PluginHandler001.verify (flags_of [str "delimiters=x"; str "bad"])).1
     = <[str "replace" :=
           VObject (first_wins [str "delimiters=x"; str "bad"])]>
         (flags_of [str "delimiters=x"; str "bad"]).
Proof.
  assert (Object.get (flags_of [str "delimiters=x"; str "bad"]) (str "replace")
          = VArray [str "delimiters=x"; str "bad"] ∅) as H1 by evaluate.
  split; [exact H1|]. exact (proj1 (verify_first_revision _ _ _ H1)).
Defined.
End WorkedMore.
